(** * Cifrado polimorfico: device (iot_client.py) and hub (iot_server.py)

    A shallow embedding of the two Python programs.  Python integers are
    unbounded, so they are [Z]; a 64-bit value exists only where the source
    masks with [0xFFFFFFFFFFFFFFFF].  Bytes objects are lists of integers in
    [0, 256), a [str] is the list of its code points, a file is the list of
    its bytes, the table [self.clientes] is a [gmap] keyed by the device
    identity.  Console output and the write-only JSON logs are represented by
    the value each handler returns. *)

From Stdlib Require Import ZArith List Lia Bool String.
From stdpp Require Import base numbers option list strings gmap.

Local Open Scope Z_scope.

(** ** Constants and message tags *)

(** The literal [0xFFFFFFFFFFFFFFFF]. *)
Definition MASK64 : Z := 0xFFFFFFFFFFFFFFFF.

(** [class TipoMensaje(Enum)], the same four members in both programs. *)
Inductive TipoMensaje : Set := FCM | RM | KUM | LCM.

(** [TipoMensaje.X.value] *)
Definition value (t : TipoMensaje) : Z :=
  match t with FCM => 0 | RM => 1 | KUM => 2 | LCM => 3 end.

(** ** Exceptions and results *)

(** The Python exceptions the modelled statements can raise. *)
Inductive Excepcion : Set :=
| StructError          (* struct.pack / struct.unpack *)
| IndexError           (* list subscript out of range *)
| OverflowError        (* int.to_bytes *)
| UnicodeDecodeError   (* bytes.decode *)
| UnicodeEncodeError   (* str.encode *)
| FileNotFoundError.   (* open(..., 'rb') *)

(** A pure computation that either returns or raises. *)
Inductive resultado (A : Type) : Type :=
| Ok (a : A)
| Raise (e : Excepcion).
Arguments Ok {A} a.
Arguments Raise {A} e.

(** Sequencing: an exception skips the rest. *)
Global Instance resultado_ret : MRet resultado := λ A a, Ok a.
Global Instance resultado_bind : MBind resultado := λ A B k r,
  match r with Ok a => k a | Raise e => Raise e end.

(** ** Byte-level helpers: [struct], [int.from_bytes], [int.to_bytes] *)

(** [int.from_bytes(datos, 'big')] *)
Definition from_bytes_big (datos : list Z) : Z :=
  fold_left (λ acc b, acc * 256 + b) datos 0.

(** [int.from_bytes(datos, 'little')], the order [struct] uses for the
    standard-size native formats on little-endian machines. *)
Fixpoint from_bytes_little (datos : list Z) : Z :=
  match datos with
  | [] => 0
  | b :: resto => b + 256 * from_bytes_little resto
  end.

(** The [n] low bytes of [num], least significant first. *)
Fixpoint bytes_little (n : nat) (num : Z) : list Z :=
  match n with
  | O => []
  | S n' => num mod 256 :: bytes_little n' (num / 256)
  end.

(** [num.to_bytes(n, 'big')]: raises [OverflowError] unless
    [0 <= num < 256^n]. *)
Definition to_bytes_big (n : nat) (num : Z) : resultado (list Z) :=
  if (0 <=? num) && (num <? 256 ^ Z.of_nat n)
  then Ok (rev (bytes_little n num))
  else Raise OverflowError.

(** [struct.pack('B', v)] *)
Definition pack_B (v : Z) : resultado (list Z) :=
  if (0 <=? v) && (v <=? 255) then Ok [v] else Raise StructError.

(** [struct.pack('Q', v)]: 8 bytes, least significant first (the native
    order of the machines the programs run on; both programs use the same
    format string, so the choice does not matter between them). *)
Definition pack_Q (v : Z) : resultado (list Z) :=
  if (0 <=? v) && (v <=? MASK64) then Ok (bytes_little 8 v) else Raise StructError.

(** [struct.pack('QQQ', a, b, c)]: three 8-byte fields, no padding. *)
Definition pack_QQQ (a b c : Z) : resultado (list Z) :=
  ba ← pack_Q a; bb ← pack_Q b; bc ← pack_Q c; Ok (ba ++ bb ++ bc).

(** [struct.unpack('B', datos)[0]]: the buffer must hold exactly 1 byte. *)
Definition unpack_B (datos : list Z) : resultado Z :=
  match datos with
  | [b] => Ok b
  | _ => Raise StructError
  end.

(** [struct.unpack('Q', datos)[0]]: the buffer must hold exactly 8 bytes. *)
Definition unpack_Q (datos : list Z) : resultado Z :=
  if decide (length datos = 8%nat) then Ok (from_bytes_little datos)
  else Raise StructError.

(** [struct.unpack('QQQ', datos)]: the buffer must hold exactly 24 bytes. *)
Definition unpack_QQQ (datos : list Z) : resultado (Z * Z * Z) :=
  if decide (length datos = 24%nat)
  then Ok (from_bytes_little (take 8 datos),
           from_bytes_little (take 8 (drop 8 datos)),
           from_bytes_little (take 8 (drop 16 datos)))
  else Raise StructError.

(** A file system: file name to contents. *)
Abbreviation archivos := (gmap string (list Z)).

(** [lista[i]] for a Python list: negative subscripts count from the end,
    anything outside [-len, len) raises [IndexError]. *)
Definition subscript {A} (lista : list A) (i : Z) : resultado A :=
  let n := Z.of_nat (length lista) in
  let j := if i <? 0 then i + n else i in
  if (0 <=? j) && (j <? n) then
    match lista !! Z.to_nat j with
    | Some x => Ok x
    | None => Raise IndexError
    end
  else Raise IndexError.

(** ** UTF-8, as [str.encode('utf-8')] and [bytes.decode('utf-8')] do it *)

(** One code point to its UTF-8 bytes; surrogates cannot be encoded. *)
Definition encode_cp (c : Z) : resultado (list Z) :=
  if c <? 0x80 then Ok [c]
  else if c <? 0x800 then
    Ok [Z.lor 0xC0 (Z.shiftr c 6); Z.lor 0x80 (Z.land c 0x3F)]
  else if (0xD800 <=? c) && (c <=? 0xDFFF) then Raise UnicodeEncodeError
  else if c <? 0x10000 then
    Ok [Z.lor 0xE0 (Z.shiftr c 12);
        Z.lor 0x80 (Z.land (Z.shiftr c 6) 0x3F);
        Z.lor 0x80 (Z.land c 0x3F)]
  else
    Ok [Z.lor 0xF0 (Z.shiftr c 18);
        Z.lor 0x80 (Z.land (Z.shiftr c 12) 0x3F);
        Z.lor 0x80 (Z.land (Z.shiftr c 6) 0x3F);
        Z.lor 0x80 (Z.land c 0x3F)].

(** [texto.encode('utf-8')] *)
Fixpoint encode_utf8 (texto : list Z) : resultado (list Z) :=
  match texto with
  | [] => Ok []
  | c :: resto =>
      bs ← encode_cp c; bs' ← encode_utf8 resto; Ok (bs ++ bs')
  end.

(** A continuation byte [10xxxxxx]. *)
Definition es_continuacion (b : Z) : bool := (0x80 <=? b) && (b <=? 0xBF).

(** [datos.decode('utf-8')], strict: overlong forms, surrogates, code points
    above U+10FFFF, stray or missing continuation bytes all raise. *)
Fixpoint decode_utf8 (datos : list Z) : resultado (list Z) :=
  match datos with
  | [] => Ok []
  | b0 :: r0 =>
      if b0 <? 0x80 then t ← decode_utf8 r0; Ok (b0 :: t)
      else if (0xC2 <=? b0) && (b0 <=? 0xDF) then
        match r0 with
        | b1 :: r1 =>
            if es_continuacion b1 then
              t ← decode_utf8 r1;
              Ok (Z.lor (Z.shiftl (Z.land b0 0x1F) 6) (Z.land b1 0x3F) :: t)
            else Raise UnicodeDecodeError
        | _ => Raise UnicodeDecodeError
        end
      else if (0xE0 <=? b0) && (b0 <=? 0xEF) then
        match r0 with
        | b1 :: b2 :: r2 =>
            let c := Z.lor (Z.shiftl (Z.land b0 0x0F) 12)
                       (Z.lor (Z.shiftl (Z.land b1 0x3F) 6) (Z.land b2 0x3F)) in
            if es_continuacion b1 && es_continuacion b2 && (0x800 <=? c)
               && negb ((0xD800 <=? c) && (c <=? 0xDFFF)) then
              t ← decode_utf8 r2; Ok (c :: t)
            else Raise UnicodeDecodeError
        | _ => Raise UnicodeDecodeError
        end
      else if (0xF0 <=? b0) && (b0 <=? 0xF4) then
        match r0 with
        | b1 :: b2 :: b3 :: r3 =>
            let c := Z.lor (Z.shiftl (Z.land b0 0x07) 18)
                       (Z.lor (Z.shiftl (Z.land b1 0x3F) 12)
                          (Z.lor (Z.shiftl (Z.land b2 0x3F) 6) (Z.land b3 0x3F))) in
            if es_continuacion b1 && es_continuacion b2 && es_continuacion b3
               && (0x10000 <=? c) && (c <=? 0x10FFFF) then
              t ← decode_utf8 r3; Ok (c :: t)
            else Raise UnicodeDecodeError
        | _ => Raise UnicodeDecodeError
        end
      else Raise UnicodeDecodeError
  end.

(** [datos.ljust(ancho, b'\x00')] *)
Definition ljust (ancho : nat) (datos : list Z) : list Z :=
  datos ++ replicate (ancho - length datos) 0.

(** [texto.lstrip('\x00')] *)
Fixpoint lstrip0 (texto : list Z) : list Z :=
  match texto with
  | [] => []
  | c :: resto => if c =? 0 then lstrip0 resto else texto
  end.

(** [texto.strip('\x00')]: NUL characters go from both ends. *)
Definition strip0 (texto : list Z) : list Z :=
  rev (lstrip0 (rev (lstrip0 texto))).

(** ** The device: [class ClienteIoT] *)

Module Cliente.

(** The attributes [__init__] creates. *)
Record ClienteIoT : Type := mkCliente {
  id : Z;              (* self.id *)
  llaves : list Z;     (* self.llaves *)
  llave_actual : Z;    (* self.llave_actual *)
  p : Z;               (* self.p *)
  q : Z;               (* self.q *)
  s : Z                (* self.s *)
}.

(** What a method of the device runs in: the object, the files it writes,
    and the raw values the module [random] will deliver, in order.
    [getrandbits(k)] consumes one raw value and returns it reduced to [k]
    bits, [randint(0, 63)] one raw value reduced to that range. *)
Record Mundo : Type := mkMundo {
  self : ClienteIoT;
  disco : archivos;
  azar : list Z
}.

(** A method call either finishes (returning or raising, in a new world) or
    is still drawing random numbers when the supplied ones run out ([None]). *)
Definition M (A : Type) : Type := Mundo → option (resultado A * Mundo).

#[global] Instance M_ret : MRet M := λ A a w, Some (Ok a, w).

#[global] Instance M_bind : MBind M := λ A B k m w,
  match m w with
  | Some (Ok a, w') => k a w'
  | Some (Raise e, w') => Some (Raise e, w')
  | None => None
  end.

(** A pure step that may raise. *)
Definition lift {A} (r : resultado A) : M A := λ w, Some (r, w).

Definition get_self : M ClienteIoT := λ w, Some (Ok (self w), w).

Definition put_self (c : ClienteIoT) : M unit := λ w,
  Some (Ok tt, mkMundo c (disco w) (azar w)).

(** [open(nombre, 'wb')]: the file is created or truncated. *)
Definition open_wb (nombre : string) : M unit := λ w,
  Some (Ok tt, mkMundo (self w) (<[nombre := []]> (disco w)) (azar w)).

(** [f.write(datos)] on the file opened under [nombre]. *)
Definition write (nombre : string) (datos : list Z) : M unit := λ w,
  Some (Ok tt,
        mkMundo (self w)
                (<[nombre := default [] (disco w !! nombre) ++ datos]> (disco w))
                (azar w)).

(** [random.getrandbits(bits)] *)
Definition getrandbits (bits : Z) : M Z := λ w,
  match azar w with
  | [] => None
  | r :: resto => Some (Ok (r mod 2 ^ bits), mkMundo (self w) (disco w) resto)
  end.

(** [random.randint(0, 63)] *)
Definition randint_0_63 : M Z := λ w,
  match azar w with
  | [] => None
  | r :: resto => Some (Ok (r mod 64), mkMundo (self w) (disco w) resto)
  end.

(** The acceptance test of [generar_primo]:
    [num > 1 and all(num % i != 0 for i in [2, 3, 5, 7, 11, 13])]. *)
Definition pasa_prueba (num : Z) : bool :=
  (1 <? num) && forallb (λ i, negb (num mod i =? 0)) [2; 3; 5; 7; 11; 13].

(** The [while True] loop of [generar_primo], over the raw random values. *)
Fixpoint bucle_primo (bits : Z) (crudos : list Z) : option (Z * list Z) :=
  match crudos with
  | [] => None
  | r :: resto =>
      let num := r mod 2 ^ bits in
      if pasa_prueba num then Some (num, resto) else bucle_primo bits resto
  end.

(** [generar_primo(self, bits=16)] *)
Definition generar_primo (bits : Z) : M Z := λ w,
  match bucle_primo bits (azar w) with
  | None => None
  | Some (num, resto) => Some (Ok num, mkMundo (self w) (disco w) resto)
  end.

(** [funcion_mezcla(self, x, y)] *)
Definition funcion_mezcla (x y : Z) : Z :=
  Z.lxor x y + Z.lor (Z.land x 0xFFFF) (Z.shiftl y 16).

(** [funcion_generacion(self, x, y)] *)
Definition funcion_generacion (x y : Z) : Z :=
  let rotado := Z.land (Z.lor (Z.shiftr x 32) (Z.shiftl x 32)) MASK64 in
  Z.lxor rotado y.

(** [funcion_mutacion(self, x, y)] *)
Definition funcion_mutacion (x y : Z) : Z :=
  Z.lxor (x + y) (Z.lor (Z.shiftl x 8) (Z.shiftr y 8)).

(** The body of [for i in range(4)] in [generar_llaves], run [n] times:
    [c] is the object (whose [llaves] grows), [sem] the local [s]. *)
Fixpoint bucle_llaves (n : nat) (c : ClienteIoT) (sem : Z) : ClienteIoT * Z :=
  match n with
  | O => (c, sem)
  | S n' =>
      let p0 := funcion_mezcla (p c) sem in
      let llave := funcion_generacion p0 (q c) in
      let c' := mkCliente (id c) (llaves c ++ [llave]) (llave_actual c)
                          (p c) (q c) (s c) in
      bucle_llaves n' c' (funcion_mutacion sem (q c'))
  end.

(** [generar_llaves(self)] *)
Definition generar_llaves (c : ClienteIoT) : ClienteIoT :=
  let c0 := mkCliente (id c) [] (llave_actual c) (p c) (q c) (s c) in
  fst (bucle_llaves 4 c0 (s c0)).

(** [cifrar_mensaje(self, mensaje, llave)] *)
Definition cifrar_mensaje (mensaje : list Z) (llave : Z) : resultado Z :=
  codificado ← encode_utf8 mensaje;
  let datos := take 8 (ljust 8 codificado) in
  let num := from_bytes_big datos in
  let num := Z.lxor num llave in
  let num := Z.land (Z.lor (Z.shiftr num 4) (Z.shiftl num 60)) MASK64 in
  Ok num.

(** What a method printed last, standing for its console output. *)
Inductive Aviso : Set :=
| PrimeroFCM      (* "Error: Primero debe generar FCM" *)
| Creado.         (* "[... CREADO] ..." *)

(** [ClienteIoT()], that is [__init__]. *)
Definition init : M unit :=
  i ← randint_0_63;
  put_self (mkCliente i [] 0 0 0 0).

Definition set_p (v : Z) : M unit :=
  c ← get_self;
  put_self (mkCliente (id c) (llaves c) (llave_actual c) v (q c) (s c)).

Definition set_q (v : Z) : M unit :=
  c ← get_self;
  put_self (mkCliente (id c) (llaves c) (llave_actual c) (p c) v (s c)).

Definition set_s (v : Z) : M unit :=
  c ← get_self;
  put_self (mkCliente (id c) (llaves c) (llave_actual c) (p c) (q c) v).

(** The header byte [(self.id << 2) | tipo.value]. *)
Definition cabecera (c : ClienteIoT) (tipo : TipoMensaje) : Z :=
  Z.lor (Z.shiftl (id c) 2) (value tipo).

(** The part [crear_fcm] and [crear_kum] have in common: fresh parameters,
    a new key table, and the binary file [nombre] with header and P, Q, S.
    (The JSON file written afterwards is never read by either program.) *)
Definition crear_parametros (nombre : string) (tipo : TipoMensaje) : M Aviso :=
  v ← generar_primo 16; set_p v;;
  v ← generar_primo 16; set_q v;;
  v ← getrandbits 64; set_s v;;
  c ← get_self; put_self (generar_llaves c);;
  open_wb nombre;;
  c ← get_self;
  cab ← lift (pack_B (cabecera c tipo)); write nombre cab;;
  par ← lift (pack_QQQ (p c) (q c) (s c)); write nombre par;;
  mret Creado.

(** [crear_fcm(self)] *)
Definition crear_fcm : M Aviso := crear_parametros "fcm.bin" FCM.

(** [crear_kum(self)] *)
Definition crear_kum : M Aviso := crear_parametros "kum.bin" KUM.

(** [crear_rm(self, mensaje)] *)
Definition crear_rm (mensaje : list Z) : M Aviso :=
  c ← get_self;
  match llaves c with
  | [] => mret PrimeroFCM
  | _ =>
      llave ← lift (subscript (llaves c) (llave_actual c));
      cifrado ← lift (cifrar_mensaje mensaje llave);
      open_wb "rm.bin";;
      cab ← lift (pack_B (cabecera c RM)); write "rm.bin" cab;;
      idx ← lift (pack_B (llave_actual c)); write "rm.bin" idx;;
      cif ← lift (pack_Q cifrado); write "rm.bin" cif;;
      put_self (mkCliente (id c) (llaves c) ((llave_actual c + 1) mod 4)
                          (p c) (q c) (s c));;
      mret Creado
  end.

(** [crear_lcm(self)] *)
Definition crear_lcm : M Aviso :=
  open_wb "lcm.bin";;
  c ← get_self;
  cab ← lift (pack_B (cabecera c LCM)); write "lcm.bin" cab;;
  put_self (mkCliente (id c) [] (llave_actual c) (p c) (q c) (s c));;
  mret Creado.

(** How the menu loop of [main] stands when the typed lines run out. *)
Inductive Fin : Set :=
| Salir        (* option 5 was typed: [break] *)
| Esperando.   (* blocked in [input()] *)

(** The [while True] loop of [main] over the lines typed at the prompts:
    "1" to "5" are the code points 49 to 53; options 2, 3 and 4 [continue]
    when the key table is empty, and option 2 otherwise reads one more line,
    the message. *)
Fixpoint bucle_menu (entradas : list (list Z)) : M Fin :=
  match entradas with
  | [] => mret Esperando
  | opcion :: resto =>
      if decide (opcion = [49]) then crear_fcm ;; bucle_menu resto
      else if decide (opcion = [50]) then
        c ← get_self;
        match llaves c with
        | [] => bucle_menu resto
        | _ =>
            match resto with
            | [] => mret Esperando
            | msg :: resto' => crear_rm msg ;; bucle_menu resto'
            end
        end
      else if decide (opcion = [51]) then
        c ← get_self;
        match llaves c with
        | [] => bucle_menu resto
        | _ => crear_kum ;; bucle_menu resto
        end
      else if decide (opcion = [52]) then
        c ← get_self;
        match llaves c with
        | [] => bucle_menu resto
        | _ => crear_lcm ;; bucle_menu resto
        end
      else if decide (opcion = [53]) then mret Salir
      else bucle_menu resto
  end.

(** [main()] *)
Definition main (entradas : list (list Z)) : M Fin :=
  init ;; bucle_menu entradas.

End Cliente.

(** ** The hub: [class ServidorIoT] *)

Module Servidor.

(** One value of [self.clientes]:
    [{'p': val, 'q': val, 's': val, 'llaves': [k1, k2, k3, k4]}]. *)
Record Registro : Type := mkRegistro {
  p : Z;
  q : Z;
  s : Z;
  llaves : list Z
}.

(** [self.clientes] *)
Abbreviation tabla := (gmap Z Registro).

(** A handler runs on the table and returns or raises; an exception leaves
    the table as it was when raised. *)
Definition M (A : Type) : Type := tabla → resultado A * tabla.

#[global] Instance MS_ret : MRet M := λ A a t, (Ok a, t).

#[global] Instance MS_bind : MBind M := λ A B k m t,
  match m t with
  | (Ok a, t') => k a t'
  | (Raise e, t') => (Raise e, t')
  end.

Definition lift {A} (r : resultado A) : M A := λ t, (r, t).

Definition get_clientes : M tabla := λ t, (Ok t, t).

Definition put_clientes (t' : tabla) : M unit := λ _, (Ok tt, t').

(** [try: cuerpo except FileNotFoundError: manejador] *)
Definition try_except_FileNotFoundError {A} (cuerpo manejador : M A) : M A := λ t,
  match cuerpo t with
  | (Raise FileNotFoundError, t') => manejador t'
  | r => r
  end.

(** [open(nombre, 'rb')]: the bytes still to be read. *)
Definition open_rb (disco : archivos) (nombre : string) : resultado (list Z) :=
  match disco !! nombre with
  | Some datos => Ok datos
  | None => Raise FileNotFoundError
  end.

(** What a handler printed last, standing for its console output and the
    [status] it logs. *)
Inductive Aviso : Set :=
| NoEncontrado                         (* "Error: No se encontró ....bin" *)
| TipoInvalido                         (* "Error: No es un mensaje ... válido" *)
| NoRegistrado                         (* "Error: Cliente no registrado" *)
| FcmProcesado                         (* "[FCM PROCESADO] ..." *)
| KumProcesado                         (* "[KUM PROCESADO] ..." *)
| MensajeDescifrado (mensaje : list Z) (* "[MENSAJE DESCIFRADO]: '...'" *)
| LcmProcesado (status : string).      (* "[LCM PROCESADO] {status}. ..." *)

(** [funcion_mezcla(self, x, y)] *)
Definition funcion_mezcla (x y : Z) : Z :=
  Z.lxor x y + Z.lor (Z.land x 0xFFFF) (Z.shiftl y 16).

(** [funcion_generacion(self, x, y)] *)
Definition funcion_generacion (x y : Z) : Z :=
  let rotado := Z.land (Z.lor (Z.shiftr x 32) (Z.shiftl x 32)) MASK64 in
  Z.lxor rotado y.

(** [funcion_mutacion(self, x, y)] *)
Definition funcion_mutacion (x y : Z) : Z :=
  Z.lxor (x + y) (Z.lor (Z.shiftl x 8) (Z.shiftr y 8)).

(** The body of [for i in range(4)] in [generar_llaves], run [n] times on
    the locals [llaves] and [s]. *)
Fixpoint bucle_llaves (n : nat) (p q : Z) (llaves : list Z) (s : Z) : list Z * Z :=
  match n with
  | O => (llaves, s)
  | S n' =>
      let p0 := funcion_mezcla p s in
      let llave := funcion_generacion p0 q in
      bucle_llaves n' p q (llaves ++ [llave]) (funcion_mutacion s q)
  end.

(** [generar_llaves(self, p, q, s)] *)
Definition generar_llaves (p q s : Z) : list Z :=
  fst (bucle_llaves 4 p q [] s).

(** [descifrar_mensaje(self, cifrado, llave)] *)
Definition descifrar_mensaje (cifrado llave : Z) : resultado (list Z) :=
  let num := Z.land (Z.lor (Z.shiftl cifrado 4) (Z.shiftr cifrado 60)) MASK64 in
  let num := Z.lxor num llave in
  datos ← to_bytes_big 8 num;
  texto ← decode_utf8 datos;
  Ok (strip0 texto).

(** The first part of [procesar_fcm] and [procesar_kum]: header and P, Q, S
    read from the 25 bytes of the file. *)
Definition leer_parametros (disco : archivos) (nombre : string)
  : resultado (Z * (Z * Z * Z)) :=
  f ← open_rb disco nombre;
  cabecera ← unpack_B (take 1 f);
  pqs ← unpack_QQQ (take 24 (drop 1 f));
  Ok (cabecera, pqs).

(** [procesar_fcm(self)] *)
Definition procesar_fcm (disco : archivos) : M Aviso :=
  try_except_FileNotFoundError
    (leido ← lift (leer_parametros disco "fcm.bin");
     let '(cabecera, (p, q, s)) := leido in
     let id_cliente := Z.shiftr cabecera 2 in
     let tipo := Z.land cabecera 3 in  (* 0b11 *)
     if negb (tipo =? value FCM) then mret TipoInvalido
     else
       let llaves := generar_llaves p q s in
       clientes ← get_clientes;
       put_clientes (<[id_cliente := mkRegistro p q s llaves]> clientes);;
       mret FcmProcesado)
    (mret NoEncontrado).

(** [procesar_rm(self)] *)
Definition procesar_rm (disco : archivos) : M Aviso :=
  try_except_FileNotFoundError
    (f ← lift (open_rb disco "rm.bin");
     cabecera ← lift (unpack_B (take 1 f));
     idx_llave ← lift (unpack_B (take 1 (drop 1 f)));
     cifrado ← lift (unpack_Q (take 8 (drop 2 f)));
     let id_cliente := Z.shiftr cabecera 2 in
     let tipo := Z.land cabecera 3 in  (* 0b11 *)
     if negb (tipo =? value RM) then mret TipoInvalido
     else
       clientes ← get_clientes;
       match clientes !! id_cliente with
       | None => mret NoRegistrado
       | Some registro =>
           llave ← lift (subscript (llaves registro) idx_llave);
           mensaje ← lift (descifrar_mensaje cifrado llave);
           mret (MensajeDescifrado mensaje)
       end)
    (mret NoEncontrado).

(** [procesar_kum(self)] *)
Definition procesar_kum (disco : archivos) : M Aviso :=
  try_except_FileNotFoundError
    (leido ← lift (leer_parametros disco "kum.bin");
     let '(cabecera, (p, q, s)) := leido in
     let id_cliente := Z.shiftr cabecera 2 in
     let tipo := Z.land cabecera 3 in  (* 0b11 *)
     if negb (tipo =? value KUM) then mret TipoInvalido
     else
       clientes ← get_clientes;
       match clientes !! id_cliente with
       | None => mret NoRegistrado
       | Some _ =>
           let llaves := generar_llaves p q s in
           put_clientes (<[id_cliente := mkRegistro p q s llaves]> clientes);;
           mret KumProcesado
       end)
    (mret NoEncontrado).

(** [procesar_lcm(self)] *)
Definition procesar_lcm (disco : archivos) : M Aviso :=
  try_except_FileNotFoundError
    (f ← lift (open_rb disco "lcm.bin");
     cabecera ← lift (unpack_B (take 1 f));
     let id_cliente := Z.shiftr cabecera 2 in
     let tipo := Z.land cabecera 3 in  (* 0b11 *)
     if negb (tipo =? value LCM) then mret TipoInvalido
     else
       clientes ← get_clientes;
       match clientes !! id_cliente with
       | Some _ =>
           put_clientes (delete id_cliente clientes);;
           mret (LcmProcesado "Cliente desconectado")
       | None => mret (LcmProcesado "Cliente no existia")
       end)
    (mret NoEncontrado).

(** How the menu loop of [main] stands when the typed lines run out. *)
Inductive Fin : Set :=
| Salir        (* option 5 was typed: [break] *)
| Esperando.   (* blocked in [input()] *)

(** The [while True] loop of [main]: each entry is the line typed at the
    prompt ("1" to "5" are the code points 49 to 53) with the files that are
    there when it is handled. *)
Fixpoint bucle_menu (entradas : list (list Z * archivos)) : M Fin :=
  match entradas with
  | [] => mret Esperando
  | (opcion, disco) :: resto =>
      if decide (opcion = [49]) then procesar_fcm disco ;; bucle_menu resto
      else if decide (opcion = [50]) then procesar_rm disco ;; bucle_menu resto
      else if decide (opcion = [51]) then procesar_kum disco ;; bucle_menu resto
      else if decide (opcion = [52]) then procesar_lcm disco ;; bucle_menu resto
      else if decide (opcion = [53]) then mret Salir
      else bucle_menu resto
  end.

(** [main()]: the loop on a new [ServidorIoT()]. *)
Definition main (entradas : list (list Z * archivos)) : resultado Fin * tabla :=
  bucle_menu entradas ∅.

End Servidor.

(** The file each handler reads, the number of bytes it reads after the
    header byte, and the handler, by message type. *)
Definition archivo_de (T : TipoMensaje) : string :=
  match T with
  | FCM => "fcm.bin" | RM => "rm.bin" | KUM => "kum.bin" | LCM => "lcm.bin"
  end.

Definition cuerpo_de (T : TipoMensaje) : nat :=
  match T with
  | FCM => 24 | RM => 9 | KUM => 24 | LCM => 0
  end.

Definition procesar (T : TipoMensaje) : archivos → Servidor.M Servidor.Aviso :=
  match T with
  | FCM => Servidor.procesar_fcm
  | RM => Servidor.procesar_rm
  | KUM => Servidor.procesar_kum
  | LCM => Servidor.procesar_lcm
  end.

(** ** The specification's wording, for comparison with the code *)

(** Spec 4.1, [mix(x, y)] "computed in 64-bit width with silent
    wraparound". *)
Definition mix_spec (x y : Z) : Z :=
  (Z.lxor x y + Z.lor (Z.land x 0xFFFF) (Z.shiftl y 16)) mod 2 ^ 64.

(** Spec 4.1, [mutate(x, y)] "64-bit width, wraparound on the add and
    shifts". *)
Definition mutate_spec (x y : Z) : Z :=
  (Z.lxor (x + y) (Z.lor (Z.shiftl x 8) (Z.shiftr y 8))) mod 2 ^ 64.

(** Spec 4.2: the seed before step [i], "s = mutate(s, Q)" applied [i]
    times to [S]. *)
Fixpoint semilla (i : nat) (Q S : Z) : Z :=
  match i with
  | O => S
  | S i' => Servidor.funcion_mutacion (semilla i' Q S) Q
  end.

(** Spec 4.2: the schedule is the four keys
    [generate(mix(P, s_i), Q)], [i = 0..3]. *)
Definition KeySchedule (P Q S : Z) : list Z :=
  map (λ i, Servidor.funcion_generacion
              (Servidor.funcion_mezcla P (semilla i Q S)) Q)
      (seq 0 4).

(** A value that fits an unsigned 64-bit field. *)
Definition cabe_en_64 (k : Z) : Prop := 0 ≤ k < 2 ^ 64.

(** A bytes object: every element is a byte. *)
Definition son_bytes (datos : list Z) : Prop := Forall (λ b, 0 ≤ b < 256) datos.

(** A file system whose files hold bytes. *)
Definition disco_de_bytes (disco : archivos) : Prop :=
  ∀ nombre datos, disco !! nombre = Some datos → son_bytes datos.

(** A hub step that leaves [self.clientes] alone, however it ends. *)
Definition conserva {A} (m : Servidor.M A) : Prop := ∀ t, snd (m t) = t.

(** The tables the hub can hold: empty at [__init__], then changed only by
    the four handlers, run on whatever files are there. *)
Inductive tabla_alcanzable : Servidor.tabla → Prop :=
| alcanzable_init : tabla_alcanzable ∅
| alcanzable_fcm disco t :
    disco_de_bytes disco → tabla_alcanzable t →
    tabla_alcanzable (snd (Servidor.procesar_fcm disco t))
| alcanzable_rm disco t :
    disco_de_bytes disco → tabla_alcanzable t →
    tabla_alcanzable (snd (Servidor.procesar_rm disco t))
| alcanzable_kum disco t :
    disco_de_bytes disco → tabla_alcanzable t →
    tabla_alcanzable (snd (Servidor.procesar_kum disco t))
| alcanzable_lcm disco t :
    disco_de_bytes disco → tabla_alcanzable t →
    tabla_alcanzable (snd (Servidor.procesar_lcm disco t)).

(** The four message-creating methods of the device. *)
Inductive metodo : Cliente.M Cliente.Aviso → Prop :=
| metodo_fcm : metodo Cliente.crear_fcm
| metodo_rm mensaje : metodo (Cliente.crear_rm mensaje)
| metodo_kum : metodo Cliente.crear_kum
| metodo_lcm : metodo Cliente.crear_lcm.


(** The worlds a device can be in: after [__init__] (whatever the files and
    the random values are), then after any finished method call, whether it
    returned or raised. *)
Inductive mundo_alcanzable : Cliente.Mundo → Prop :=
| alcanzable_nuevo w0 r w :
    Cliente.init w0 = Some (r, w) → mundo_alcanzable w
| alcanzable_metodo m w r w' :
    mundo_alcanzable w → metodo m → m w = Some (r, w') → mundo_alcanzable w'.

(** What holds of the device object throughout: a 6-bit identity, a key
    index in [0, 4), and a key table that is empty or holds four 64-bit
    keys. *)
Definition cliente_ok (c : Cliente.ClienteIoT) : Prop :=
  0 ≤ Cliente.id c ≤ 63 ∧
  0 ≤ Cliente.llave_actual c < 4 ∧
  (Cliente.llaves c = [] ∨ length (Cliente.llaves c) = 4%nat) ∧
  Forall cabe_en_64 (Cliente.llaves c).

(** Partial-correctness reading of a device method: if the call started in
    [w] finishes, its result and final world satisfy [post]. *)
Definition al_terminar {A} (m : Cliente.M A) (w : Cliente.Mundo)
    (post : resultado A → Cliente.Mundo → Prop) : Prop :=
  ∀ r w', m w = Some (r, w') → post r w'.

(** The world a finished call leaves behind. *)
Definition tras {A} (m : Cliente.M A) (w : Cliente.Mundo) : Cliente.Mundo :=
  match m w with
  | Some (_, w') => w'
  | None => w
  end.

(** A run used in the examples: no files yet, and the random source will
    deliver 5 (the identity), then 17, 19, 77 (first P, Q, S) and
    23, 29, 99 (next P, Q, S). *)
Definition mundo_ejemplo : Cliente.Mundo :=
  Cliente.mkMundo (Cliente.mkCliente 0 [] 0 0 0 0) ∅ [5; 17; 19; 77; 23; 29; 99].

(** The device of the example after [ClienteIoT()], [crear_fcm()] and
    [crear_rm("hi")]. *)
Definition mundo_tras_rm : Cliente.Mundo :=
  tras (Cliente.crear_rm [104; 105])
       (tras Cliente.crear_fcm (tras Cliente.init mundo_ejemplo)).

(** The hub of the example after [ServidorIoT()] and [procesar_fcm()] on the
    file the example device wrote. *)
Definition tabla_ejemplo : Servidor.tabla :=
  snd (Servidor.procesar_fcm
         (<["fcm.bin" := 20 :: bytes_little 8 17 ++ bytes_little 8 19
                            ++ bytes_little 8 77]> ∅) ∅).

(** * Properties *)

(** ** Bit-level facts *)

Section Bits.

Lemma MASK64_ones : MASK64 = Z.ones 64.
Proof. reflexivity. Qed.

Lemma land_MASK64_cabe (a : Z) : cabe_en_64 (Z.land a MASK64).
Proof.
  unfold cabe_en_64. rewrite MASK64_ones, Z.land_ones by lia.
  apply Z.mod_pos_bound. lia.
Qed.

Lemma bits_altos (n k i : Z) : 0 ≤ k → 0 ≤ n < 2 ^ k → k ≤ i → Z.testbit n i = false.
Proof.
  intros Hk Hn Hi.
  apply (proj1 (Z.bounded_iff_bits_nonneg' k n Hk (proj1 Hn)) Hn i Hi).
Qed.

Lemma lxor_acotado (k a b : Z) :
  0 ≤ k → 0 ≤ a < 2 ^ k → 0 ≤ b < 2 ^ k → 0 ≤ Z.lxor a b < 2 ^ k.
Proof.
  intros Hk Ha Hb.
  assert (0 ≤ Z.lxor a b) as Hnn by (apply Z.lxor_nonneg; lia).
  apply Z.bounded_iff_bits_nonneg'; [lia | lia |].
  intros i Hi. rewrite Z.lxor_spec.
  rewrite (bits_altos a k i), (bits_altos b k i) by lia. reflexivity.
Qed.

Lemma lor_acotado (k a b : Z) :
  0 ≤ k → 0 ≤ a < 2 ^ k → 0 ≤ b < 2 ^ k → 0 ≤ Z.lor a b < 2 ^ k.
Proof.
  intros Hk Ha Hb.
  assert (0 ≤ Z.lor a b) as Hnn by (apply Z.lor_nonneg; lia).
  apply Z.bounded_iff_bits_nonneg'; [lia | lia |].
  intros i Hi. rewrite Z.lor_spec.
  rewrite (bits_altos a k i), (bits_altos b k i) by lia. reflexivity.
Qed.

Lemma shiftl_acotado (k n a : Z) :
  0 ≤ k → 0 ≤ n → 0 ≤ a < 2 ^ k → 0 ≤ Z.shiftl a n < 2 ^ (k + n).
Proof.
  intros Hk Hn Ha. rewrite Z.shiftl_mul_pow2, Z.pow_add_r by lia. nia.
Qed.

Lemma shiftr_acotado (k n a : Z) :
  0 ≤ k → 0 ≤ n → 0 ≤ a < 2 ^ k → 0 ≤ Z.shiftr a n < 2 ^ k.
Proof.
  intros Hk Hn Ha. rewrite Z.shiftr_div_pow2 by lia.
  assert (0 < 2 ^ n) by (apply Z.pow_pos_nonneg; lia).
  split; [apply Z.div_pos; lia |].
  apply Z.le_lt_trans with a; [| lia].
  apply Z.div_le_upper_bound; nia.
Qed.

(** Rotating right by 4 and then left by 4, both within 64 bits, gives the
    word back. *)
Lemma rotacion_inversa (m : Z) :
  cabe_en_64 m →
  let c := Z.land (Z.lor (Z.shiftr m 4) (Z.shiftl m 60)) MASK64 in
  Z.land (Z.lor (Z.shiftl c 4) (Z.shiftr c 60)) MASK64 = m.
Proof.
  intros Hm c. subst c. rewrite MASK64_ones.
  apply Z.bits_inj'. intros i Hi.
  rewrite Z.land_spec, Z.lor_spec, Z.shiftl_spec, Z.shiftr_spec by lia.
  rewrite (Z.ones_spec 64 i) by lia.
  case_bool_decide as Hi64.
  - rewrite andb_true_r.
    destruct (Z.lt_ge_cases i 4) as [Hlo | Hhi].
    + rewrite (Z.testbit_neg_r _ (i - 4)) by lia. rewrite orb_false_l.
      rewrite Z.land_spec, Z.lor_spec, Z.shiftl_spec, Z.shiftr_spec by lia.
      rewrite (Z.ones_spec 64 (i + 60)) by lia.
      rewrite bool_decide_eq_true_2 by lia. rewrite andb_true_r.
      rewrite (bits_altos m 64 (i + 60 + 4)) by (unfold cabe_en_64 in Hm; lia).
      rewrite orb_false_l. f_equal. lia.
    + rewrite !Z.land_spec, !Z.lor_spec, !Z.shiftl_spec, !Z.shiftr_spec by lia.
      rewrite (Z.ones_spec 64 (i - 4)), (Z.ones_spec 64 (i + 60)) by lia.
      rewrite (bool_decide_eq_true_2 (i - 4 < 64)) by lia.
      rewrite (bool_decide_eq_false_2 (i + 60 < 64)) by lia.
      rewrite andb_true_r, andb_false_r, orb_false_r.
      rewrite (Z.testbit_neg_r _ (i - 4 - 60)) by lia.
      rewrite orb_false_r. f_equal. lia.
  - rewrite andb_false_r. symmetry.
    apply (bits_altos m 64); unfold cabe_en_64 in Hm; lia.
Qed.

End Bits.

(** ** The three primitives *)

Lemma primitivas_iguales (x y : Z) :
  Cliente.funcion_mezcla x y = Servidor.funcion_mezcla x y ∧
  Cliente.funcion_generacion x y = Servidor.funcion_generacion x y ∧
  Cliente.funcion_mutacion x y = Servidor.funcion_mutacion x y.
Proof. repeat split. Qed.

Lemma mezcla_acotada (x y : Z) :
  cabe_en_64 x → cabe_en_64 y → 0 ≤ Servidor.funcion_mezcla x y < 2 ^ 81.
Proof.
  unfold cabe_en_64, Servidor.funcion_mezcla. intros Hx Hy.
  pose proof (lxor_acotado 64 x y ltac:(lia) Hx Hy) as Hxor.
  assert (0 ≤ Z.land x 0xFFFF < 2 ^ 80) as Hland.
  { change 0xFFFF with (Z.ones 16). rewrite Z.land_ones by lia.
    pose proof (Z.mod_pos_bound x (2 ^ 16) ltac:(lia)). lia. }
  pose proof (shiftl_acotado 64 16 y ltac:(lia) ltac:(lia) Hy) as Hshl.
  change (64 + 16) with 80 in Hshl.
  pose proof (lor_acotado 80 _ _ ltac:(lia) Hland Hshl) as Hor.
  lia.
Qed.

Lemma mutacion_acotada (x y : Z) :
  cabe_en_64 x → cabe_en_64 y → 0 ≤ Servidor.funcion_mutacion x y < 2 ^ 72.
Proof.
  unfold cabe_en_64, Servidor.funcion_mutacion. intros Hx Hy.
  pose proof (shiftl_acotado 64 8 x ltac:(lia) ltac:(lia) Hx) as Hshl.
  change (64 + 8) with 72 in Hshl.
  pose proof (shiftr_acotado 64 8 y ltac:(lia) ltac:(lia) Hy) as Hshr.
  apply lxor_acotado; [lia | lia |].
  apply lor_acotado; lia.
Qed.

(** The two operands of the OR in [funcion_mezcla] share no bit, so the OR
    is a sum: the low 16 bits of [x] plus [y] times 2^16. *)
Lemma mezcla_lor_suma (x y : Z) :
  Z.lor (Z.land x 0xFFFF) (Z.shiftl y 16) = x mod 2 ^ 16 + y * 2 ^ 16.
Proof.
  assert (Z.land (Z.land x 0xFFFF) (Z.shiftl y 16) = 0) as Hdisj.
  { change 0xFFFF with (Z.ones 16). apply Z.bits_inj'. intros i Hi.
    rewrite !Z.land_spec, Z.bits_0, (Z.ones_spec 16 i) by lia.
    destruct (Z.lt_ge_cases i 16) as [Hlo | Hhi].
    - rewrite Z.shiftl_spec_low by lia. apply andb_false_r.
    - rewrite bool_decide_eq_false_2 by lia. now rewrite andb_false_r. }
  rewrite <- (Z.lxor_lor _ _ Hdisj), <- (Z.add_nocarry_lxor _ _ Hdisj).
  change 0xFFFF with (Z.ones 16).
  now rewrite Z.land_ones, Z.shiftl_mul_pow2 by lia.
Qed.

(** With a first argument of 58 bits or more the mutation has a bit set
    above bit 64: the top bit of [x << 8], which [x + y] cannot reach. *)
Lemma mutacion_excede (x y : Z) :
  cabe_en_64 x → cabe_en_64 y → 2 ^ 57 ≤ x → 2 ^ 64 ≤ Servidor.funcion_mutacion x y.
Proof.
  unfold cabe_en_64. intros Hx Hy Hgrande.
  destruct (Z.le_gt_cases (2 ^ 64) (Servidor.funcion_mutacion x y)) as [H | Hlt];
    [exact H | exfalso].
  pose proof (mutacion_acotada x y Hx Hy) as [Hnn _].
  assert (57 ≤ Z.log2 x) as Hlog by (apply Z.log2_le_pow2; lia).
  pose proof (bits_altos (Servidor.funcion_mutacion x y) 64 (Z.log2 x + 8)
                ltac:(lia) ltac:(lia) ltac:(lia)) as Hbit.
  unfold Servidor.funcion_mutacion in Hbit.
  rewrite Z.lxor_spec, Z.lor_spec, Z.shiftl_spec, Z.shiftr_spec in Hbit by lia.
  replace (Z.log2 x + 8 - 8) with (Z.log2 x) in Hbit by lia.
  rewrite Z.bit_log2 in Hbit by lia.
  rewrite (bits_altos (x + y) 65 (Z.log2 x + 8)) in Hbit by lia.
  discriminate Hbit.
Qed.

(** C2, as the code has it.  For every pair of integers, [funcion_mezcla]
    and [funcion_mutacion] return the value of their expression as an
    unbounded integer, the same on device and hub: the mix is
    [(x XOR y) + x mod 2^16 + y * 2^16], with nothing taken modulo 2^64.  Each
    is congruent modulo 2^64 to the 64-bit wrapped value of the
    specification and equals it exactly if and only if it lies in [0, 2^64).
    For 64-bit arguments the mix lies in [0, 2^81) and the mutation in
    [0, 2^72); the mix is at least [y * 2^16], so it exceeds 64 bits as soon
    as [y] has 49 bits, and the mutation exceeds 64 bits as soon as [x] has
    58 bits. *)
Theorem mezcla_mutacion_sin_reduccion (x y : Z) :
  Cliente.funcion_mezcla x y = Z.lxor x y + Z.lor (Z.land x 0xFFFF) (Z.shiftl y 16) ∧
  Servidor.funcion_mezcla x y = Cliente.funcion_mezcla x y ∧
  Cliente.funcion_mezcla x y = Z.lxor x y + x mod 2 ^ 16 + y * 2 ^ 16 ∧
  Cliente.funcion_mutacion x y = Z.lxor (x + y) (Z.lor (Z.shiftl x 8) (Z.shiftr y 8)) ∧
  Servidor.funcion_mutacion x y = Cliente.funcion_mutacion x y ∧
  Cliente.funcion_mezcla x y mod 2 ^ 64 = mix_spec x y ∧
  Cliente.funcion_mutacion x y mod 2 ^ 64 = mutate_spec x y ∧
  (Cliente.funcion_mezcla x y = mix_spec x y ↔
   cabe_en_64 (Cliente.funcion_mezcla x y)) ∧
  (Cliente.funcion_mutacion x y = mutate_spec x y ↔
   cabe_en_64 (Cliente.funcion_mutacion x y)) ∧
  (cabe_en_64 x → cabe_en_64 y →
   0 ≤ Cliente.funcion_mezcla x y < 2 ^ 81 ∧
   0 ≤ Cliente.funcion_mutacion x y < 2 ^ 72 ∧
   y * 2 ^ 16 ≤ Cliente.funcion_mezcla x y ∧
   (2 ^ 48 ≤ y → ¬ cabe_en_64 (Cliente.funcion_mezcla x y) ∧
                 Cliente.funcion_mezcla x y ≠ mix_spec x y) ∧
   (2 ^ 57 ≤ x → ¬ cabe_en_64 (Cliente.funcion_mutacion x y) ∧
                 Cliente.funcion_mutacion x y ≠ mutate_spec x y)).
Proof.
  assert (∀ v, v = v mod 2 ^ 64 ↔ cabe_en_64 v) as Hmod.
  { intros v. unfold cabe_en_64. split.
    - intros ->. apply Z.mod_pos_bound. lia.
    - intros Hv. symmetry. now apply Z.mod_small. }
  assert (Cliente.funcion_mezcla x y = Z.lxor x y + x mod 2 ^ 16 + y * 2 ^ 16)
    as Hsuma.
  { unfold Cliente.funcion_mezcla. rewrite mezcla_lor_suma. lia. }
  split; [reflexivity |]. split; [reflexivity |]. split; [exact Hsuma |].
  split; [reflexivity |]. split; [reflexivity |]. split; [reflexivity |].
  split; [reflexivity |].
  split; [apply (Hmod (Cliente.funcion_mezcla x y)) |].
  split; [apply (Hmod (Cliente.funcion_mutacion x y)) |].
  intros Hx Hy.
  pose proof (mezcla_acotada x y Hx Hy) as Hmez.
  pose proof (mutacion_acotada x y Hx Hy) as Hmut.
  assert (y * 2 ^ 16 ≤ Cliente.funcion_mezcla x y) as Hbajo.
  { rewrite Hsuma. unfold cabe_en_64 in Hx, Hy.
    pose proof (lxor_acotado 64 x y ltac:(lia) Hx Hy).
    pose proof (Z.mod_pos_bound x (2 ^ 16) ltac:(lia)). lia. }
  split; [exact Hmez |]. split; [exact Hmut |]. split; [exact Hbajo |]. split.
  - intros Hgrande.
    assert (¬ cabe_en_64 (Cliente.funcion_mezcla x y)) as Hno.
    { unfold cabe_en_64. lia. }
    split; [exact Hno |]. intros Heq.
    apply Hno, (Hmod (Cliente.funcion_mezcla x y)), Heq.
  - intros Hgrande.
    pose proof (mutacion_excede x y Hx Hy Hgrande) as Hexc.
    assert (¬ cabe_en_64 (Cliente.funcion_mutacion x y)) as Hno.
    { unfold cabe_en_64.
      change (Cliente.funcion_mutacion x y) with (Servidor.funcion_mutacion x y). lia. }
    split; [exact Hno |]. intros Heq.
    apply Hno, (Hmod (Cliente.funcion_mutacion x y)), Heq.
Qed.

Lemma mezcla_mutacion_sin_reduccion_witness :
  Cliente.funcion_mezcla 17 (2 ^ 63) = 2 ^ 63 + 2 ^ 79 + 34 ∧
  ¬ cabe_en_64 (Cliente.funcion_mezcla 17 (2 ^ 63)) ∧
  Cliente.funcion_mezcla 17 (2 ^ 63) ≠ mix_spec 17 (2 ^ 63) ∧
  ¬ cabe_en_64 (Cliente.funcion_mutacion (2 ^ 63) 19) ∧
  Cliente.funcion_mutacion (2 ^ 63) 19 ≠ mutate_spec (2 ^ 63) 19.
Proof.
  assert (cabe_en_64 17) as H17 by (unfold cabe_en_64; lia).
  assert (cabe_en_64 19) as H19 by (unfold cabe_en_64; lia).
  assert (cabe_en_64 (2 ^ 63)) as H63 by (unfold cabe_en_64; lia).
  destruct (mezcla_mutacion_sin_reduccion 17 (2 ^ 63))
    as (_ & _ & Hsuma & _ & _ & _ & _ & _ & _ & Hcotas).
  destruct (Hcotas H17 H63) as (_ & _ & _ & Hmez & _).
  destruct (mezcla_mutacion_sin_reduccion (2 ^ 63) 19)
    as (_ & _ & _ & _ & _ & _ & _ & _ & _ & Hcotas').
  destruct (Hcotas' H63 H19) as (_ & _ & _ & _ & Hmut).
  split; [rewrite Hsuma; reflexivity |].
  split; [apply Hmez; lia |]. split; [apply Hmez; lia |].
  split; apply Hmut; lia.
Defined.

(** C2 as stated fails: with the 16-bit P = 17 (or Q = 19) and the 64-bit
    seed 2^63 neither result is reduced modulo 2^64, and neither fits in 64
    bits. *)
Lemma mezcla_mutacion_exceden_64_bits :
  Cliente.funcion_mezcla 17 (2 ^ 63) ≠ mix_spec 17 (2 ^ 63) ∧
  ¬ cabe_en_64 (Cliente.funcion_mezcla 17 (2 ^ 63)) ∧
  Cliente.funcion_mutacion (2 ^ 63) 19 ≠ mutate_spec (2 ^ 63) 19 ∧
  ¬ cabe_en_64 (Cliente.funcion_mutacion (2 ^ 63) 19) ∧
  Servidor.funcion_mezcla 17 (2 ^ 63) ≠ mix_spec 17 (2 ^ 63) ∧
  Servidor.funcion_mutacion (2 ^ 63) 19 ≠ mutate_spec (2 ^ 63) 19.
Proof.
  unfold cabe_en_64. vm_compute. repeat split; try discriminate.
  - intros [_ H]. discriminate H.
  - intros [_ H]. discriminate H.
Qed.

(** ** Key derivation *)

Lemma semilla_desplazada (i : nat) (Q S : Z) :
  semilla i Q (Servidor.funcion_mutacion S Q) =
  Servidor.funcion_mutacion (semilla i Q S) Q.
Proof. induction i as [| i IH]; simpl; [reflexivity | now rewrite IH]. Qed.

(** The hub's loop appends, to what it already has, the keys of the
    specification's iteration. *)
Lemma bucle_servidor_spec (n : nat) (P Q : Z) :
  ∀ (acc : list Z) (S : Z),
    fst (Servidor.bucle_llaves n P Q acc S) =
    acc ++ map (λ i, Servidor.funcion_generacion
                       (Servidor.funcion_mezcla P (semilla i Q S)) Q)
               (seq 0 n).
Proof.
  induction n as [| n IH]; intros acc S.
  - simpl. now rewrite app_nil_r.
  - simpl Servidor.bucle_llaves. rewrite IH.
    rewrite <- app_assoc. f_equal.
    change (seq 0 (Datatypes.S n)) with (0%nat :: seq 1 n).
    rewrite <- seq_shift. simpl. f_equal. rewrite List.map_map.
    apply map_ext. intros i. now rewrite semilla_desplazada.
Qed.

(** The device's loop touches only [llaves], and fills it as the hub's loop
    fills its local list. *)
Lemma bucle_cliente_servidor (n : nat) :
  ∀ (c : Cliente.ClienteIoT) (sem : Z),
    let c' := fst (Cliente.bucle_llaves n c sem) in
    Cliente.llaves c' =
      fst (Servidor.bucle_llaves n (Cliente.p c) (Cliente.q c) (Cliente.llaves c) sem) ∧
    Cliente.id c' = Cliente.id c ∧
    Cliente.llave_actual c' = Cliente.llave_actual c ∧
    Cliente.p c' = Cliente.p c ∧ Cliente.q c' = Cliente.q c ∧
    Cliente.s c' = Cliente.s c.
Proof.
  induction n as [| n IH]; intros c sem; [simpl; tauto |].
  simpl Cliente.bucle_llaves. simpl Servidor.bucle_llaves.
  match goal with
  | |- context [Cliente.bucle_llaves n ?c1 ?s1] => specialize (IH c1 s1)
  end.
  simpl in IH. exact IH.
Qed.

Lemma generar_llaves_cliente (c : Cliente.ClienteIoT) :
  let c' := Cliente.generar_llaves c in
  Cliente.llaves c' =
    Servidor.generar_llaves (Cliente.p c) (Cliente.q c) (Cliente.s c) ∧
  Cliente.id c' = Cliente.id c ∧
  Cliente.llave_actual c' = Cliente.llave_actual c ∧
  Cliente.p c' = Cliente.p c ∧ Cliente.q c' = Cliente.q c ∧
  Cliente.s c' = Cliente.s c.
Proof.
  unfold Cliente.generar_llaves, Servidor.generar_llaves.
  match goal with
  | |- context [Cliente.bucle_llaves 4 ?c1 ?s1] =>
      apply (bucle_cliente_servidor 4 c1 s1)
  end.
Qed.

Lemma generar_llaves_servidor_spec (P Q S : Z) :
  Servidor.generar_llaves P Q S = KeySchedule P Q S.
Proof.
  unfold Servidor.generar_llaves, KeySchedule. now rewrite bucle_servidor_spec.
Qed.

(** C4: from the same (P, Q, S) the device's [generar_llaves] (whatever
    its identity, old key table and key index are) and the hub's
    [generar_llaves] produce the same list of exactly four keys, the list
    [generacion(mezcla(P, s_i), Q)] with [s_0 = S] and
    [s_(i+1) = mutacion(s_i, Q)]; the result is a function of (P, Q, S)
    alone, so the same inputs always give the same four keys. *)
Theorem generar_llaves_cliente_servidor
    (P Q S : Z) (ident : Z) (viejas : list Z) (indice : Z) :
  Cliente.llaves
    (Cliente.generar_llaves (Cliente.mkCliente ident viejas indice P Q S)) =
    Servidor.generar_llaves P Q S ∧
  Servidor.generar_llaves P Q S = KeySchedule P Q S ∧
  length (Servidor.generar_llaves P Q S) = 4%nat ∧
  KeySchedule P Q S =
    [ Servidor.funcion_generacion (Servidor.funcion_mezcla P S) Q;
      Servidor.funcion_generacion
        (Servidor.funcion_mezcla P (Servidor.funcion_mutacion S Q)) Q;
      Servidor.funcion_generacion
        (Servidor.funcion_mezcla P
           (Servidor.funcion_mutacion (Servidor.funcion_mutacion S Q) Q)) Q;
      Servidor.funcion_generacion
        (Servidor.funcion_mezcla P
           (Servidor.funcion_mutacion
              (Servidor.funcion_mutacion (Servidor.funcion_mutacion S Q) Q) Q)) Q ].
Proof.
  split.
  - apply (generar_llaves_cliente (Cliente.mkCliente ident viejas indice P Q S)).
  - split; [apply generar_llaves_servidor_spec |]. split.
    + rewrite generar_llaves_servidor_spec. reflexivity.
    + reflexivity.
Qed.

(** The rotation of [funcion_generacion] is masked, so the key fits in 64
    bits as soon as [y] does, whatever [x] is. *)
Lemma generacion_cabe (x y : Z) :
  cabe_en_64 y → cabe_en_64 (Servidor.funcion_generacion x y).
Proof.
  intros Hy. unfold Servidor.funcion_generacion.
  pose proof (land_MASK64_cabe (Z.lor (Z.shiftr x 32) (Z.shiftl x 32))) as Hrot.
  unfold cabe_en_64 in *. apply lxor_acotado; lia.
Qed.

Lemma generar_llaves_caben (P Q S : Z) :
  cabe_en_64 Q → Forall cabe_en_64 (Servidor.generar_llaves P Q S).
Proof.
  intros HQ. rewrite generar_llaves_servidor_spec. unfold KeySchedule. apply Forall_forall. intros k Hk.
  apply list_elem_of_In, in_map_iff in Hk. destruct Hk as (i & <- & _).
  now apply generacion_cabe.
Qed.

(** ** The header byte *)

(** C8: for an identity in [0, 63] and any of the four tags, the header byte
    the device packs, [(id << 2) | tag], is a valid byte, and the hub's
    [cabecera >> 2] and [cabecera & 0b11] give back the identity and the
    tag. *)
Theorem cabecera_ida_y_vuelta (c : Cliente.ClienteIoT) (tipo : TipoMensaje) :
  0 ≤ Cliente.id c ≤ 63 →
  pack_B (Cliente.cabecera c tipo) = Ok [Cliente.cabecera c tipo] ∧
  unpack_B [Cliente.cabecera c tipo] = Ok (Cliente.cabecera c tipo) ∧
  Z.shiftr (Cliente.cabecera c tipo) 2 = Cliente.id c ∧
  Z.land (Cliente.cabecera c tipo) 3 = value tipo.
Proof.
  intros Hid. unfold Cliente.cabecera.
  assert (Z.shiftr (Z.lor (Z.shiftl (Cliente.id c) 2) (value tipo)) 2 = Cliente.id c)
    as Hsr.
  { rewrite Z.shiftr_lor, Z.shiftr_shiftl_l by lia.
    replace (Z.shiftr (value tipo) 2) with 0 by (destruct tipo; reflexivity).
    rewrite Z.lor_0_r. change (2 - 2) with 0. apply Z.shiftl_0_r. }
  assert (Z.land (Z.lor (Z.shiftl (Cliente.id c) 2) (value tipo)) 3 = value tipo)
    as Hland.
  { rewrite Z.land_lor_distr_l.
    replace (Z.land (value tipo) 3) with (value tipo) by (destruct tipo; reflexivity).
    change 3 with (Z.ones 2). rewrite Z.land_ones, Z.shiftl_mul_pow2 by lia.
    rewrite Z.mod_mul by lia. apply Z.lor_0_l. }
  assert (0 ≤ Z.lor (Z.shiftl (Cliente.id c) 2) (value tipo) ≤ 255) as Hrango.
  { assert (0 ≤ Z.lor (Z.shiftl (Cliente.id c) 2) (value tipo) < 2 ^ 8); [| lia].
    apply lor_acotado; [lia | | destruct tipo; simpl; lia].
    rewrite Z.shiftl_mul_pow2 by lia. lia. }
  repeat split; try assumption.
  unfold pack_B.
  destruct (Z.leb_spec 0 (Z.lor (Z.shiftl (Cliente.id c) 2) (value tipo))); [| lia].
  destruct (Z.leb_spec (Z.lor (Z.shiftl (Cliente.id c) 2) (value tipo)) 255); [| lia].
  reflexivity.
Qed.

Lemma cabecera_ida_y_vuelta_witness :
  Z.shiftr (Cliente.cabecera (Cliente.mkCliente 5 [] 0 0 0 0) RM) 2 = 5 ∧
  Z.land (Cliente.cabecera (Cliente.mkCliente 5 [] 0 0 0 0) RM) 3 = 1.
Proof.
  destruct (cabecera_ida_y_vuelta (Cliente.mkCliente 5 [] 0 0 0 0) RM)
    as (_ & _ & Hid & Htipo); [simpl; lia |].
  split; [exact Hid | exact Htipo].
Defined.

(** ** The hub's handlers *)

Section Manejadores.

Import Servidor.

Lemma conserva_lift {A} (r : resultado A) : conserva (lift r).
Proof. intros t. reflexivity. Qed.

Lemma conserva_mret {A} (a : A) : conserva (mret a : M A).
Proof. intros t. reflexivity. Qed.

Lemma conserva_get : conserva get_clientes.
Proof. intros t. reflexivity. Qed.

Lemma conserva_bind {A B} (m : M A) (k : A → M B) :
  conserva m → (∀ a, conserva (k a)) → conserva (m ≫= k).
Proof.
  intros Hm Hk t. unfold mbind, MS_bind.
  specialize (Hm t). destruct (m t) as [[a | e] t']; simpl in Hm; subst t'.
  - apply Hk.
  - reflexivity.
Qed.

Lemma conserva_try {A} (cuerpo manejador : M A) :
  conserva cuerpo → conserva manejador →
  conserva (try_except_FileNotFoundError cuerpo manejador).
Proof.
  intros Hc Hm t. unfold try_except_FileNotFoundError.
  specialize (Hc t). destruct (cuerpo t) as [[a | e] t']; simpl in Hc; subst t'.
  - reflexivity.
  - destruct e; try reflexivity. apply Hm.
Qed.

Lemma procesar_rm_conserva (disco : archivos) : conserva (procesar_rm disco).
Proof.
  unfold procesar_rm.
  apply conserva_try; [| apply conserva_mret].
  repeat (apply conserva_bind; [apply conserva_lift | intros ?]).
  destruct (negb _); [apply conserva_mret |].
  apply conserva_bind; [apply conserva_get | intros clientes].
  destruct (clientes !! _); [| apply conserva_mret].
  repeat (apply conserva_bind; [apply conserva_lift | intros ?]).
  apply conserva_mret.
Qed.

Lemma subscript_raise {A} (lista : list A) (i : Z) (e : Excepcion) :
  subscript lista i = Raise e → e = IndexError.
Proof.
  unfold subscript. destruct (_ && _); [destruct (lista !! _) |]; congruence.
Qed.

Lemma decode_utf8_raise (n : nat) :
  ∀ (datos : list Z) (e : Excepcion),
    (length datos ≤ n)%nat → decode_utf8 datos = Raise e → e = UnicodeDecodeError.
Proof.
  induction n as [| n IH]; intros datos e Hlen.
  - destruct datos; [simpl; congruence | simpl in Hlen; lia].
  - destruct datos as [| b0 r0]; [simpl; congruence |].
    simpl in Hlen. simpl decode_utf8.
    assert (∀ (r : list Z) (f : list Z → resultado (list Z)),
              (length r ≤ n)%nat → (∀ t, f t ≠ Raise e) →
              (decode_utf8 r ≫= f) = Raise e → e = UnicodeDecodeError) as Hrec.
    { intros r f Hr Hf. unfold mbind, resultado_bind.
      destruct (decode_utf8 r) as [t | e'] eqn:E.
      - intros H. destruct (Hf t H).
      - intros [= <-]. apply (IH r e' Hr E). }
    destruct (b0 <? 0x80).
    { apply Hrec; [lia | congruence]. }
    destruct (_ && _).
    { destruct r0 as [| b1 r1]; [congruence |].
      destruct (es_continuacion b1); [| congruence].
      apply Hrec; [simpl in Hlen; lia | congruence]. }
    destruct (_ && _).
    { destruct r0 as [| b1 [| b2 r2]]; try congruence.
      destruct (_ && _); [| congruence].
      apply Hrec; [simpl in Hlen; lia | congruence]. }
    destruct (_ && _); [| congruence].
    destruct r0 as [| b1 [| b2 [| b3 r3]]]; try congruence.
    destruct (_ && _); [| congruence].
    apply Hrec; [simpl in Hlen; lia | congruence].
Qed.

Lemma descifrar_mensaje_raise (cifrado llave : Z) (e : Excepcion) :
  descifrar_mensaje cifrado llave = Raise e →
  e = OverflowError ∨ e = UnicodeDecodeError.
Proof.
  unfold descifrar_mensaje, mbind, resultado_bind, to_bytes_big.
  destruct (_ && _); [| intros [= <-]; now left].
  destruct (decode_utf8 _) as [texto | e'] eqn:E; [congruence |].
  intros [= <-]. right. eapply decode_utf8_raise; [reflexivity | exact E].
Qed.

(** What [procesar_rm] does once the ten bytes of [rm.bin] are read. *)
Lemma procesar_rm_leido (disco : archivos) (t : tabla) (cab idx : Z) (cif : list Z) :
  disco !! "rm.bin" = Some (cab :: idx :: cif) → (8 ≤ length cif)%nat →
  procesar_rm disco t =
    if negb (Z.land cab 3 =? value RM) then (Ok TipoInvalido, t)
    else match t !! Z.shiftr cab 2 with
         | None => (Ok NoRegistrado, t)
         | Some registro =>
             match subscript (llaves registro) idx with
             | Raise e => (Raise IndexError, t)
             | Ok llave =>
                 match descifrar_mensaje (from_bytes_little (take 8 cif)) llave with
                 | Raise e => (Raise e, t)
                 | Ok mensaje => (Ok (MensajeDescifrado mensaje), t)
                 end
             end
         end.
Proof.
  intros Hf Hlen.
  unfold procesar_rm, try_except_FileNotFoundError, mbind, MS_bind, lift, open_rb.
  rewrite Hf.
  change (take 1 (cab :: idx :: cif)) with [cab].
  change (take 1 (drop 1 (cab :: idx :: cif))) with [idx].
  change (drop 2 (cab :: idx :: cif)) with cif.
  unfold unpack_Q. rewrite length_take, Nat.min_l by lia. simpl.
  destruct (negb _); [reflexivity |].
  unfold get_clientes, mret, MS_ret.
  destruct (t !! Z.shiftr cab 2) as [registro |]; [| reflexivity].
  destruct (subscript _ _) as [llave | e] eqn:Esub.
  - destruct (descifrar_mensaje _ _) as [mensaje | e] eqn:Edes; [reflexivity |].
    destruct (descifrar_mensaje_raise _ _ _ Edes) as [-> | ->]; reflexivity.
  - rewrite (subscript_raise _ _ _ Esub). reflexivity.
Qed.

(** C10: [procesar_rm] never changes [self.clientes]: whatever the file
    system holds and however the call ends (message decoded, file missing,
    wrong tag, unknown device, or an exception), the table after the call is
    the table before it.  The other three handlers can change it. *)
Theorem procesar_rm_no_modifica_tabla :
  (∀ (disco : archivos) (t : tabla), snd (procesar_rm disco t) = t) ∧
  (∃ disco t, snd (procesar_fcm disco t) ≠ t) ∧
  (∃ disco t, snd (procesar_kum disco t) ≠ t) ∧
  (∃ disco t, snd (procesar_lcm disco t) ≠ t).
Proof.
  split; [intros disco t; apply procesar_rm_conserva |].
  pose (pqs := bytes_little 8 17 ++ bytes_little 8 19 ++ bytes_little 8 77).
  pose (t5 := <[5 := mkRegistro 1 2 3 []]> (∅ : tabla)).
  split; [| split].
  - exists (<["fcm.bin" := 20 :: pqs]> ∅), ∅.
    intros H. apply (f_equal (λ m : tabla, m !! 5)) in H.
    vm_compute in H. discriminate H.
  - exists (<["kum.bin" := 22 :: pqs]> ∅), t5.
    intros H. apply (f_equal (λ m : tabla, p <$> m !! 5)) in H.
    vm_compute in H. discriminate H.
  - exists (<["lcm.bin" := [23]]> ∅), t5.
    intros H. apply (f_equal (λ m : tabla, p <$> m !! 5)) in H.
    vm_compute in H. discriminate H.
Qed.

(** C6: a Regular message (well-formed file, tag RM) whose identity has no
    entry in [self.clientes] is answered with "Cliente no registrado": no text
    is decoded and the table is unchanged. *)
Theorem procesar_rm_cliente_no_registrado
    (disco : archivos) (t : tabla) (cab idx : Z) (cif : list Z) :
  disco !! "rm.bin" = Some (cab :: idx :: cif) → (8 ≤ length cif)%nat →
  Z.land cab 3 = value RM →
  t !! Z.shiftr cab 2 = None →
  procesar_rm disco t = (Ok NoRegistrado, t).
Proof.
  intros Hf Hlen Htipo Hid.
  rewrite (procesar_rm_leido disco t cab idx cif Hf Hlen), Htipo, Hid.
  reflexivity.
Qed.

Lemma procesar_rm_cliente_no_registrado_witness :
  procesar_rm (<["rm.bin" := [21; 0; 1; 0; 0; 208; 6; 64; 130; 54]]> ∅) ∅ =
  (Ok NoRegistrado, ∅).
Proof.
  apply (procesar_rm_cliente_no_registrado _ _ 21 0 [1; 0; 0; 208; 6; 64; 130; 54]).
  - reflexivity.
  - simpl. lia.
  - reflexivity.
  - reflexivity.
Defined.

(** C5, what the code does: for a registered device and a key index that is
    not below the length of the stored key list, the subscript
    [self.clientes[id]['llaves'][idx]] raises [IndexError], which no handler
    catches; the table is unchanged. *)
Theorem procesar_rm_indice_fuera_de_rango
    (disco : archivos) (t : tabla) (cab idx : Z) (cif : list Z) (registro : Registro) :
  disco !! "rm.bin" = Some (cab :: idx :: cif) → (8 ≤ length cif)%nat →
  Z.land cab 3 = value RM →
  t !! Z.shiftr cab 2 = Some registro →
  Z.of_nat (length (llaves registro)) ≤ idx →
  procesar_rm disco t = (Raise IndexError, t).
Proof.
  intros Hf Hlen Htipo Hid Hidx.
  rewrite (procesar_rm_leido disco t cab idx cif Hf Hlen), Htipo, Hid.
  simpl negb. cbv iota.
  unfold subscript.
  destruct (Z.ltb_spec idx 0) as [Hneg | _]; [lia |].
  destruct (Z.ltb_spec idx (Z.of_nat (length (llaves registro)))) as [Hlt | _];
    [lia |].
  rewrite andb_false_r. reflexivity.
Qed.

Lemma procesar_rm_indice_fuera_de_rango_witness :
  let t := <[5 := mkRegistro 17 19 77 (generar_llaves 17 19 77)]> (∅ : tabla) in
  procesar_rm (<["rm.bin" := [21; 4; 1; 0; 0; 208; 6; 64; 130; 54]]> ∅) t =
  (Raise IndexError, t).
Proof.
  intros t.
  apply (procesar_rm_indice_fuera_de_rango _ _ 21 4 [1; 0; 0; 208; 6; 64; 130; 54]
           (mkRegistro 17 19 77 (generar_llaves 17 19 77))).
  - reflexivity.
  - simpl. lia.
  - reflexivity.
  - reflexivity.
  - simpl. lia.
Defined.

(** C7: for a registered device, the first LastContact message removes the
    entry with status "Cliente desconectado", the second one finds nothing
    and returns normally with status "Cliente no existia"; after either call
    the table has no entry for the identity. *)
Theorem procesar_lcm_dos_veces
    (disco : archivos) (t : tabla) (cab : Z) (resto : list Z) (registro : Registro) :
  disco !! "lcm.bin" = Some (cab :: resto) →
  Z.land cab 3 = value LCM →
  t !! Z.shiftr cab 2 = Some registro →
  let r1 := procesar_lcm disco t in
  let r2 := procesar_lcm disco (snd r1) in
  fst r1 = Ok (LcmProcesado "Cliente desconectado") ∧
  snd r1 !! Z.shiftr cab 2 = None ∧
  fst r2 = Ok (LcmProcesado "Cliente no existia") ∧
  snd r2 !! Z.shiftr cab 2 = None ∧
  snd r2 = snd r1.
Proof.
  intros Hf Htipo Hid.
  assert (∀ t', procesar_lcm disco t' =
                match t' !! Z.shiftr cab 2 with
                | Some _ => (Ok (LcmProcesado "Cliente desconectado"),
                             delete (Z.shiftr cab 2) t')
                | None => (Ok (LcmProcesado "Cliente no existia"), t')
                end) as Hlcm.
  { intros t'.
    unfold procesar_lcm, try_except_FileNotFoundError, mbind, MS_bind, lift, open_rb.
    rewrite Hf. change (take 1 (cab :: resto)) with [cab]. simpl.
    rewrite Htipo. simpl. unfold get_clientes.
    destruct (t' !! Z.shiftr cab 2); reflexivity. }
  intros r1 r2. subst r2 r1.
  rewrite (Hlcm t), Hid. simpl.
  rewrite (Hlcm (delete (Z.shiftr cab 2) t)), lookup_delete_eq. simpl.
  rewrite lookup_delete_eq. repeat split.
Qed.

Lemma procesar_lcm_dos_veces_witness :
  let t := <[5 := mkRegistro 17 19 77 (generar_llaves 17 19 77)]> (∅ : tabla) in
  let disco : archivos := <["lcm.bin" := [23]]> ∅ in
  fst (procesar_lcm disco t) = Ok (LcmProcesado "Cliente desconectado") ∧
  fst (procesar_lcm disco (snd (procesar_lcm disco t))) =
    Ok (LcmProcesado "Cliente no existia").
Proof.
  intros t disco.
  destruct (procesar_lcm_dos_veces disco t 23 []
              (mkRegistro 17 19 77 (generar_llaves 17 19 77)))
    as (H1 & _ & H2 & _); [reflexivity | reflexivity | reflexivity |].
  split; [exact H1 | exact H2].
Defined.

End Manejadores.

(** ** Bytes, text and the cipher *)

Lemma from_bytes_big_snoc (datos : list Z) (b : Z) :
  from_bytes_big (datos ++ [b]) = from_bytes_big datos * 256 + b.
Proof. unfold from_bytes_big. now rewrite fold_left_app. Qed.

Lemma from_bytes_big_little (datos : list Z) :
  from_bytes_big datos = from_bytes_little (rev datos).
Proof.
  induction datos as [| b datos IH] using rev_ind; [reflexivity |].
  rewrite from_bytes_big_snoc, rev_unit, IH. simpl. lia.
Qed.

Lemma from_bytes_little_acotado (datos : list Z) :
  son_bytes datos → 0 ≤ from_bytes_little datos < 256 ^ Z.of_nat (length datos).
Proof.
  induction 1 as [| b datos Hb _ IH]; [simpl; lia |].
  cbn [from_bytes_little length]. rewrite Nat2Z.inj_succ, Z.pow_succ_r by lia. lia.
Qed.

Lemma bytes_little_from_bytes (datos : list Z) :
  son_bytes datos → bytes_little (length datos) (from_bytes_little datos) = datos.
Proof.
  induction 1 as [| b datos Hb _ IH]; [reflexivity |].
  cbn [from_bytes_little length bytes_little].
  replace ((b + 256 * from_bytes_little datos) mod 256) with b.
  - replace ((b + 256 * from_bytes_little datos) / 256)
      with (from_bytes_little datos); [now rewrite IH |].
    symmetry. rewrite (Z.mul_comm 256), Z.div_add by lia.
    rewrite Z.div_small by lia. lia.
  - symmetry. rewrite (Z.mul_comm 256), Z.mod_add by lia.
    apply Z.mod_small. lia.
Qed.

(** [int.from_bytes(datos, 'big').to_bytes(len(datos), 'big') == datos] *)
Lemma to_bytes_from_bytes_big (datos : list Z) :
  son_bytes datos → to_bytes_big (length datos) (from_bytes_big datos) = Ok datos.
Proof.
  intros Hb. unfold to_bytes_big. rewrite from_bytes_big_little.
  assert (son_bytes (rev datos)) as Hrev.
  { unfold son_bytes. apply Forall_forall. intros b Hin.
    apply list_elem_of_In, in_rev, list_elem_of_In in Hin.
    revert b Hin. apply Forall_forall, Hb. }
  pose proof (from_bytes_little_acotado (rev datos) Hrev) as Hcota.
  rewrite length_rev in Hcota.
  destruct (Z.leb_spec 0 (from_bytes_little (rev datos))); [| lia].
  destruct (Z.ltb_spec (from_bytes_little (rev datos))
                       (256 ^ Z.of_nat (length datos))); [| lia].
  simpl. rewrite <- (length_rev datos), bytes_little_from_bytes by exact Hrev.
  now rewrite rev_involutive.
Qed.

(** ASCII text is its own UTF-8 encoding, both ways. *)
Lemma encode_utf8_ascii (texto : list Z) :
  Forall (λ c, 0 ≤ c < 0x80) texto → encode_utf8 texto = Ok texto.
Proof.
  induction 1 as [| c texto Hc _ IH]; [reflexivity |].
  simpl. unfold encode_cp.
  destruct (Z.ltb_spec c 0x80); [| lia]. simpl. now rewrite IH.
Qed.

Lemma decode_utf8_ascii (datos : list Z) :
  Forall (λ b, 0 ≤ b < 0x80) datos → decode_utf8 datos = Ok datos.
Proof.
  induction 1 as [| b datos Hb _ IH]; [reflexivity |].
  simpl. destruct (Z.ltb_spec b 0x80); [| lia]. now rewrite IH.
Qed.

Lemma lstrip0_ceros (n : nat) (texto : list Z) :
  lstrip0 (replicate n 0 ++ texto) = lstrip0 texto.
Proof. induction n as [| n IH]; [reflexivity | exact IH]. Qed.

Lemma lstrip0_sin_ceros (texto resto : list Z) :
  texto ≠ [] → Forall (λ c, c ≠ 0) texto → lstrip0 (texto ++ resto) = texto ++ resto.
Proof.
  intros Hne Hnz. destruct Hnz as [| c texto Hc _]; [congruence |].
  simpl. destruct (Z.eqb_spec c 0); [contradiction | reflexivity].
Qed.

Lemma rev_replicate (n : nat) (x : Z) : rev (replicate n x) = replicate n x.
Proof.
  induction n as [| n IH]; [reflexivity |].
  simpl. rewrite IH. clear IH.
  induction n as [| n IH]; [reflexivity |]. simpl. now rewrite IH.
Qed.

(** Padding on the right with NULs is undone by [strip('\x00')] when the
    text itself has no NUL. *)
Lemma strip0_ljust (texto : list Z) (n : nat) :
  Forall (λ c, c ≠ 0) texto → strip0 (texto ++ replicate n 0) = texto.
Proof.
  intros Hnz. unfold strip0.
  destruct texto as [| c texto].
  - simpl. rewrite <- (app_nil_r (replicate n 0)), lstrip0_ceros. reflexivity.
  - rewrite (lstrip0_sin_ceros (c :: texto)) by (congruence || assumption).
    rewrite rev_app_distr, rev_replicate, lstrip0_ceros.
    rewrite <- (app_nil_r (rev (c :: texto))).
    rewrite lstrip0_sin_ceros, app_nil_r; [apply rev_involutive | |].
    + simpl. destruct (rev texto); discriminate.
    + apply Forall_forall. intros x Hin.
      apply list_elem_of_In, in_rev, list_elem_of_In in Hin.
      revert x Hin. apply Forall_forall, Hnz.
Qed.

(** C1: a text of 1 to 8 ASCII characters, none of them NUL, encrypted by
    the device's [cifrar_mensaje] under a 64-bit key and decrypted by the
    hub's [descifrar_mensaje] under the same key, comes back unchanged; the
    ciphertext fits the 64-bit field of the Regular message. *)
Theorem cifrar_descifrar (mensaje : list Z) (llave : Z) :
  (1 ≤ length mensaje ≤ 8)%nat →
  Forall (λ c, 1 ≤ c ≤ 127) mensaje →
  cabe_en_64 llave →
  ∃ cifrado,
    Cliente.cifrar_mensaje mensaje llave = Ok cifrado ∧
    cabe_en_64 cifrado ∧
    Servidor.descifrar_mensaje cifrado llave = Ok mensaje.
Proof.
  intros Hlen Hascii Hllave.
  set (datos := mensaje ++ replicate (8 - length mensaje) 0).
  assert (length datos = 8%nat) as Hlen8.
  { unfold datos. rewrite length_app, length_replicate. lia. }
  assert (Forall (λ b, 0 ≤ b < 0x80) datos) as H7bit.
  { unfold datos. apply Forall_app. split.
    - eapply Forall_impl; [exact Hascii | simpl; intros; lia].
    - apply Forall_forall. intros b Hb. apply elem_of_replicate in Hb. lia. }
  assert (son_bytes datos) as Hbytes.
  { eapply Forall_impl; [exact H7bit | simpl; intros; lia]. }
  assert (cabe_en_64 (from_bytes_big datos)) as Hnum.
  { unfold cabe_en_64. rewrite from_bytes_big_little.
    assert (son_bytes (rev datos)) as Hrev.
    { apply Forall_forall. intros b Hin.
      apply list_elem_of_In, in_rev, list_elem_of_In in Hin.
      revert b Hin. apply Forall_forall, Hbytes. }
    pose proof (from_bytes_little_acotado (rev datos) Hrev) as Hcota.
    rewrite length_rev, Hlen8 in Hcota. exact Hcota. }
  assert (cabe_en_64 (Z.lxor (from_bytes_big datos) llave)) as Hxor.
  { unfold cabe_en_64 in *. apply lxor_acotado; lia. }
  eexists. split; [| split].
  - unfold Cliente.cifrar_mensaje.
    rewrite encode_utf8_ascii
      by (eapply Forall_impl; [exact Hascii | simpl; intros; lia]).
    unfold mbind, resultado_bind, ljust. fold datos.
    rewrite take_ge by lia. reflexivity.
  - apply land_MASK64_cabe.
  - unfold Servidor.descifrar_mensaje.
    rewrite (rotacion_inversa _ Hxor).
    rewrite Z.lxor_assoc, Z.lxor_nilpotent, Z.lxor_0_r.
    rewrite <- Hlen8 at 1. rewrite (to_bytes_from_bytes_big datos Hbytes).
    unfold mbind, resultado_bind. rewrite (decode_utf8_ascii datos H7bit).
    f_equal. apply strip0_ljust.
    eapply Forall_impl; [exact Hascii | simpl; intros; lia].
Qed.

Lemma cifrar_descifrar_witness :
  ∃ cifrado,
    Cliente.cifrar_mensaje [104; 105] 21674041358155795 = Ok cifrado ∧
    cabe_en_64 cifrado ∧
    Servidor.descifrar_mensaje cifrado 21674041358155795 = Ok [104; 105].
Proof.
  apply (cifrar_descifrar [104; 105] 21674041358155795).
  - simpl. lia.
  - repeat constructor; lia.
  - unfold cabe_en_64. lia.
Defined.

(** ** The hub's table *)

Section Tabla.

Import Servidor.

Lemma son_bytes_take (n : nat) (datos : list Z) :
  son_bytes datos → son_bytes (take n datos).
Proof. apply Forall_take. Qed.

Lemma son_bytes_drop (n : nat) (datos : list Z) :
  son_bytes datos → son_bytes (drop n datos).
Proof. apply Forall_drop. Qed.

Lemma from_bytes_little_8_cabe (datos : list Z) :
  son_bytes datos → cabe_en_64 (from_bytes_little (take 8 datos)).
Proof.
  intros Hb. unfold cabe_en_64.
  pose proof (from_bytes_little_acotado (take 8 datos) (son_bytes_take 8 _ Hb)) as H.
  assert (256 ^ Z.of_nat (length (take 8 datos)) ≤ 2 ^ 64); [| lia].
  change (2 ^ 64) with (256 ^ 8). apply Z.pow_le_mono_r; [lia |].
  rewrite length_take. lia.
Qed.

(** The parameters the hub reads from a file of bytes are 64-bit values. *)
Lemma leer_parametros_caben (disco : archivos) (nombre : string)
    (cabecera P Q S : Z) :
  disco_de_bytes disco →
  leer_parametros disco nombre = Ok (cabecera, (P, Q, S)) →
  cabe_en_64 P ∧ cabe_en_64 Q ∧ cabe_en_64 S.
Proof.
  intros Hd. unfold leer_parametros, open_rb, mbind, resultado_bind.
  destruct (disco !! nombre) as [f |] eqn:Ef; [| discriminate].
  specialize (Hd _ _ Ef).
  destruct (unpack_B _); [| discriminate].
  unfold unpack_QQQ. destruct (decide _); [| discriminate].
  intros [= _ <- <- <-].
  repeat split; apply from_bytes_little_8_cabe;
    repeat (apply son_bytes_drop || apply son_bytes_take); exact Hd.
Qed.

(** Every change [procesar_fcm] or [procesar_kum] makes to the table is the
    insertion of a record whose keys are the schedule of its (P, Q, S). *)
Lemma procesar_fcm_tabla (disco : archivos) (t : tabla) :
  disco_de_bytes disco →
  snd (procesar_fcm disco t) = t ∨
  ∃ i P Q S, cabe_en_64 Q ∧
    snd (procesar_fcm disco t) = <[i := mkRegistro P Q S (generar_llaves P Q S)]> t.
Proof.
  intros Hd. unfold procesar_fcm, try_except_FileNotFoundError, mbind, MS_bind, lift.
  destruct (leer_parametros disco "fcm.bin") as [[cab [[P Q] S]] | e] eqn:E.
  - destruct (negb _); [now left |].
    right. exists (Z.shiftr cab 2), P, Q, S.
    split; [apply (leer_parametros_caben _ _ _ _ _ _ Hd E) | reflexivity].
  - left. destruct e; reflexivity.
Qed.

Lemma procesar_kum_tabla (disco : archivos) (t : tabla) :
  disco_de_bytes disco →
  snd (procesar_kum disco t) = t ∨
  ∃ i P Q S, cabe_en_64 Q ∧
    snd (procesar_kum disco t) = <[i := mkRegistro P Q S (generar_llaves P Q S)]> t.
Proof.
  intros Hd. unfold procesar_kum, try_except_FileNotFoundError, mbind, MS_bind, lift.
  destruct (leer_parametros disco "kum.bin") as [[cab [[P Q] S]] | e] eqn:E.
  - destruct (negb _); [now left |].
    unfold get_clientes. destruct (t !! Z.shiftr cab 2); [| now left].
    right. exists (Z.shiftr cab 2), P, Q, S.
    split; [apply (leer_parametros_caben _ _ _ _ _ _ Hd E) | reflexivity].
  - left. destruct e; reflexivity.
Qed.

Lemma procesar_lcm_tabla (disco : archivos) (t : tabla) :
  snd (procesar_lcm disco t) = t ∨ ∃ i, snd (procesar_lcm disco t) = delete i t.
Proof.
  unfold procesar_lcm, try_except_FileNotFoundError, mbind, MS_bind, lift.
  destruct (open_rb disco "lcm.bin") as [f | e]; [| left; destruct e; reflexivity].
  destruct (unpack_B _) as [cab | e]; [| left; destruct e; reflexivity].
  destruct (negb _); [now left |].
  unfold get_clientes. destruct (t !! Z.shiftr cab 2); [| now left].
  right. exists (Z.shiftr cab 2). reflexivity.
Qed.

(** Invariant of the hub: every stored schedule has four keys, each a
    64-bit value. *)
Lemma tabla_alcanzable_llaves (t : tabla) :
  tabla_alcanzable t →
  ∀ i registro, t !! i = Some registro →
    length (llaves registro) = 4%nat ∧ Forall cabe_en_64 (llaves registro).
Proof.
  assert (∀ (t0 : tabla) j P Q S,
            cabe_en_64 Q →
            (∀ i registro, t0 !! i = Some registro →
               length (llaves registro) = 4%nat ∧ Forall cabe_en_64 (llaves registro)) →
            ∀ i registro,
              <[j := mkRegistro P Q S (generar_llaves P Q S)]> t0 !! i = Some registro →
              length (llaves registro) = 4%nat ∧ Forall cabe_en_64 (llaves registro))
    as Hins.
  { intros t0 j P Q S HQ IH i registro.
    destruct (decide (j = i)) as [-> | Hne].
    - rewrite lookup_insert_eq. intros [= <-]. cbn [llaves].
      split; [now rewrite generar_llaves_servidor_spec | now apply generar_llaves_caben].
    - rewrite lookup_insert_ne by exact Hne. apply IH. }
  induction 1 as [| disco t Hd _ IH | disco t Hd _ IH | disco t Hd _ IH
                  | disco t Hd _ IH].
  - intros i registro. rewrite lookup_empty. discriminate.
  - destruct (procesar_fcm_tabla disco t Hd) as [-> | (j & P & Q & S & HQ & ->)];
      [exact IH | now apply (Hins t j P Q S)].
  - now rewrite procesar_rm_conserva.
  - destruct (procesar_kum_tabla disco t Hd) as [-> | (j & P & Q & S & HQ & ->)];
      [exact IH | now apply (Hins t j P Q S)].
  - destruct (procesar_lcm_tabla disco t) as [-> | (j & ->)]; [exact IH |].
    intros i registro Hl. apply lookup_delete_Some in Hl as [_ Hl].
    exact (IH i registro Hl).
Qed.

End Tabla.

Lemma pack_Q_cabe (k : Z) : cabe_en_64 k → pack_Q k = Ok (bytes_little 8 k).
Proof.
  unfold cabe_en_64, pack_Q, MASK64. intros Hk.
  destruct (Z.leb_spec 0 k); [| lia].
  destruct (Z.leb_spec k 0xFFFFFFFFFFFFFFFF); [reflexivity | lia].
Qed.

(** ** The device *)

Section Dispositivo.

Import Cliente.

(** *** Rules for [al_terminar] *)

Lemma al_terminar_mret {A} (a : A) (w : Mundo) post :
  post (Ok a) w → al_terminar (mret a) w post.
Proof. intros H r w' [= <- <-]. exact H. Qed.

Lemma al_terminar_lift {A} (x : resultado A) (w : Mundo) post :
  post x w → al_terminar (lift x) w post.
Proof. intros H r w' [= <- <-]. exact H. Qed.

Lemma al_terminar_bind {A B} (m : M A) (k : A → M B) (w : Mundo) post :
  al_terminar m w (λ r w1, match r with
                           | Ok a => al_terminar (k a) w1 post
                           | Raise e => post (Raise e) w1
                           end) →
  al_terminar (m ≫= k) w post.
Proof.
  intros Hm r w'. unfold mbind, M_bind.
  destruct (m w) as [[[a | e] w1] |] eqn:E; [| | discriminate].
  - apply (Hm _ _ E).
  - intros [= <- <-]. apply (Hm _ _ E).
Qed.

Lemma al_terminar_get_self (w : Mundo) post :
  post (Ok (self w)) w → al_terminar get_self w post.
Proof. intros H r w' [= <- <-]. exact H. Qed.

Lemma al_terminar_put_self (c : ClienteIoT) (w : Mundo) post :
  post (Ok tt) (mkMundo c (disco w) (azar w)) → al_terminar (put_self c) w post.
Proof. intros H r w' [= <- <-]. exact H. Qed.

Lemma al_terminar_open_wb (nombre : string) (w : Mundo) post :
  (∀ d, post (Ok tt) (mkMundo (self w) d (azar w))) →
  al_terminar (open_wb nombre) w post.
Proof. intros H r w' [= <- <-]. apply H. Qed.

Lemma al_terminar_write (nombre : string) (datos : list Z) (w : Mundo) post :
  (∀ d, post (Ok tt) (mkMundo (self w) d (azar w))) →
  al_terminar (write nombre datos) w post.
Proof. intros H r w' [= <- <-]. apply H. Qed.

Lemma al_terminar_getrandbits (bits : Z) (w : Mundo) post :
  0 ≤ bits →
  (∀ v az, 0 ≤ v < 2 ^ bits → post (Ok v) (mkMundo (self w) (disco w) az)) →
  al_terminar (getrandbits bits) w post.
Proof.
  intros Hbits H r w'. unfold getrandbits.
  destruct (azar w) as [| x az]; [discriminate |].
  intros [= <- <-]. apply H. apply Z.mod_pos_bound, Z.pow_pos_nonneg; lia.
Qed.

Lemma al_terminar_randint (w : Mundo) post :
  (∀ v az, 0 ≤ v ≤ 63 → post (Ok v) (mkMundo (self w) (disco w) az)) →
  al_terminar randint_0_63 w post.
Proof.
  intros H r w'. unfold randint_0_63.
  destruct (azar w) as [| x az]; [discriminate |].
  intros [= <- <-]. apply H.
  pose proof (Z.mod_pos_bound x 64 ltac:(lia)). lia.
Qed.

Lemma bucle_primo_rango (bits : Z) (crudos : list Z) (num : Z) (resto : list Z) :
  0 ≤ bits → bucle_primo bits crudos = Some (num, resto) →
  0 ≤ num < 2 ^ bits ∧ pasa_prueba num = true.
Proof.
  intros Hbits. induction crudos as [| x crudos IH]; [discriminate |].
  simpl. destruct (pasa_prueba (x mod 2 ^ bits)) eqn:E; [| exact IH].
  intros [= <- <-]. split; [| exact E].
  apply Z.mod_pos_bound. apply Z.pow_pos_nonneg; lia.
Qed.

Lemma al_terminar_generar_primo (bits : Z) (w : Mundo) post :
  0 ≤ bits →
  (∀ v az, 0 ≤ v < 2 ^ bits → pasa_prueba v = true →
           post (Ok v) (mkMundo (self w) (disco w) az)) →
  al_terminar (generar_primo bits) w post.
Proof.
  intros Hbits H r w'. unfold generar_primo.
  destruct (bucle_primo bits (azar w)) as [[num resto] |] eqn:E; [| discriminate].
  intros [= <- <-].
  destruct (bucle_primo_rango _ _ _ _ Hbits E). now apply H.
Qed.

Lemma al_terminar_set_p (v : Z) (w : Mundo) post :
  post (Ok tt)
       (mkMundo (mkCliente (id (self w)) (llaves (self w)) (llave_actual (self w))
                           v (q (self w)) (s (self w)))
                (disco w) (azar w)) →
  al_terminar (set_p v) w post.
Proof. intros H r w' [= <- <-]. exact H. Qed.

Lemma al_terminar_set_q (v : Z) (w : Mundo) post :
  post (Ok tt)
       (mkMundo (mkCliente (id (self w)) (llaves (self w)) (llave_actual (self w))
                           (p (self w)) v (s (self w)))
                (disco w) (azar w)) →
  al_terminar (set_q v) w post.
Proof. intros H r w' [= <- <-]. exact H. Qed.

Lemma al_terminar_set_s (v : Z) (w : Mundo) post :
  post (Ok tt)
       (mkMundo (mkCliente (id (self w)) (llaves (self w)) (llave_actual (self w))
                           (p (self w)) (q (self w)) v)
                (disco w) (azar w)) →
  al_terminar (set_s v) w post.
Proof. intros H r w' [= <- <-]. exact H. Qed.

(** Where [crear_fcm] and [crear_kum] leave the object whenever they finish,
    returning or raising: fresh 16-bit P and Q, a fresh 64-bit S, the key
    table derived from them; identity and key index are not touched. *)
Lemma crear_parametros_fin (nombre : string) (tipo : TipoMensaje) (w : Mundo) :
  al_terminar (crear_parametros nombre tipo) w (λ _ w',
    ∃ P Q S : Z,
      0 ≤ P < 2 ^ 16 ∧ 0 ≤ Q < 2 ^ 16 ∧ 0 ≤ S < 2 ^ 64 ∧
      self w' = generar_llaves
                  (mkCliente (id (self w)) (llaves (self w))
                             (llave_actual (self w)) P Q S)).
Proof.
  unfold crear_parametros.
  apply al_terminar_bind, al_terminar_generar_primo; [lia |]. intros P az1 HP _.
  apply al_terminar_bind, al_terminar_set_p.
  apply al_terminar_bind, al_terminar_generar_primo; [lia |]. intros Q az2 HQ _.
  apply al_terminar_bind, al_terminar_set_q.
  apply al_terminar_bind, al_terminar_getrandbits; [lia |]. intros S az3 HS.
  apply al_terminar_bind, al_terminar_set_s.
  apply al_terminar_bind, al_terminar_get_self.
  apply al_terminar_bind, al_terminar_put_self.
  apply al_terminar_bind, al_terminar_open_wb. intros d1.
  apply al_terminar_bind, al_terminar_get_self.
  apply al_terminar_bind, al_terminar_lift.
  assert (∀ d az,
    ∃ P0 Q0 S0 : Z,
      0 ≤ P0 < 2 ^ 16 ∧ 0 ≤ Q0 < 2 ^ 16 ∧ 0 ≤ S0 < 2 ^ 64 ∧
      self (mkMundo (generar_llaves
                       (mkCliente (id (self w)) (llaves (self w))
                                  (llave_actual (self w)) P Q S)) d az) =
      generar_llaves
        (mkCliente (id (self w)) (llaves (self w)) (llave_actual (self w))
                   P0 Q0 S0)) as Hfin.
  { intros d az. exists P, Q, S. repeat split; lia || reflexivity. }
  destruct (pack_B _) as [cab | e]; [| apply Hfin].
  apply al_terminar_bind, al_terminar_write. intros d2.
  apply al_terminar_bind, al_terminar_lift.
  destruct (pack_QQQ _ _ _) as [par | e]; [| apply Hfin].
  apply al_terminar_bind, al_terminar_write. intros d3.
  apply al_terminar_mret, Hfin.
Qed.

(** [crear_rm] changes nothing but the key index, which it advances by one
    modulo 4 when it gets to the end. *)
Lemma crear_rm_fin (mensaje : list Z) (w : Mundo) :
  al_terminar (crear_rm mensaje) w (λ r w',
    self w' = self w ∨
    (r = Ok Creado ∧ llaves (self w) ≠ [] ∧
     self w' = mkCliente (id (self w)) (llaves (self w))
                         ((llave_actual (self w) + 1) mod 4)
                         (p (self w)) (q (self w)) (s (self w)))).
Proof.
  unfold crear_rm.
  apply al_terminar_bind, al_terminar_get_self. cbv beta iota.
  destruct (llaves (self w)) as [| k0 ks] eqn:Ell.
  { apply al_terminar_mret. now left. }
  apply al_terminar_bind, al_terminar_lift.
  destruct (subscript _ _) as [llave | e]; [| now left].
  apply al_terminar_bind, al_terminar_lift.
  destruct (cifrar_mensaje _ _) as [cifrado | e]; [| now left].
  apply al_terminar_bind, al_terminar_open_wb. intros d1.
  apply al_terminar_bind, al_terminar_lift.
  destruct (pack_B _) as [cab | e]; [| now left].
  apply al_terminar_bind, al_terminar_write. intros d2.
  apply al_terminar_bind, al_terminar_lift.
  destruct (pack_B _) as [idx | e]; [| now left].
  apply al_terminar_bind, al_terminar_write. intros d3.
  apply al_terminar_bind, al_terminar_lift.
  destruct (pack_Q _) as [cif | e]; [| now left].
  apply al_terminar_bind, al_terminar_write. intros d4.
  apply al_terminar_bind, al_terminar_put_self.
  apply al_terminar_mret. right. repeat split; congruence.
Qed.

(** [crear_lcm] changes nothing but the key table, which it empties when it
    gets to the end. *)
Lemma crear_lcm_fin (w : Mundo) :
  al_terminar crear_lcm w (λ r w',
    self w' = self w ∨
    self w' = mkCliente (id (self w)) [] (llave_actual (self w))
                        (p (self w)) (q (self w)) (s (self w))).
Proof.
  unfold crear_lcm.
  apply al_terminar_bind, al_terminar_open_wb. intros d1.
  apply al_terminar_bind, al_terminar_get_self.
  apply al_terminar_bind, al_terminar_lift.
  destruct (pack_B _) as [cab | e]; [| now left].
  apply al_terminar_bind, al_terminar_write. intros d2.
  apply al_terminar_bind, al_terminar_put_self.
  apply al_terminar_mret. now right.
Qed.

Lemma init_fin (w0 : Mundo) :
  al_terminar init w0 (λ _ w,
    ∃ i, 0 ≤ i ≤ 63 ∧ self w = mkCliente i [] 0 0 0 0).
Proof.
  unfold init.
  apply al_terminar_bind, al_terminar_randint. intros i az Hi.
  apply al_terminar_put_self. now exists i.
Qed.

(** Invariant of the device. *)
Lemma mundo_alcanzable_ok (w : Mundo) : mundo_alcanzable w → cliente_ok (self w).
Proof.
  unfold cliente_ok.
  induction 1 as [w0 r w Hinit | m w r w' _ IH Hm Hrun].
  - destruct (init_fin w0 r w Hinit) as (i & Hi & ->).
    repeat split; simpl; try lia; [now left | constructor].
  - destruct IH as (Hid & Hidx & Hlen & Hcabe).
    destruct Hm as [| mensaje | |].
    + destruct (crear_parametros_fin _ _ w r w' Hrun) as (P & Q & S & HP & HQ & HS & ->).
      destruct (generar_llaves_cliente
                  (mkCliente (id (self w)) (llaves (self w))
                             (llave_actual (self w)) P Q S))
        as (-> & -> & -> & _).
      cbn [id llaves llave_actual p q s].
      repeat split; try lia.
      * right. now rewrite generar_llaves_servidor_spec.
      * apply generar_llaves_caben. unfold cabe_en_64. lia.
    + destruct (crear_rm_fin mensaje w r w' Hrun) as [-> | (_ & _ & ->)].
      * repeat split; assumption || lia.
      * pose proof (Z.mod_pos_bound (llave_actual (self w) + 1) 4 ltac:(lia)).
        repeat split; simpl; assumption || lia.
    + destruct (crear_parametros_fin _ _ w r w' Hrun) as (P & Q & S & HP & HQ & HS & ->).
      destruct (generar_llaves_cliente
                  (mkCliente (id (self w)) (llaves (self w))
                             (llave_actual (self w)) P Q S))
        as (-> & -> & -> & _).
      cbn [id llaves llave_actual p q s].
      repeat split; try lia.
      * right. now rewrite generar_llaves_servidor_spec.
      * apply generar_llaves_caben. unfold cabe_en_64. lia.
    + destruct (crear_lcm_fin w r w' Hrun) as [-> | ->].
      * repeat split; assumption || lia.
      * repeat split; simpl; try lia; [now left | constructor].
Qed.

Lemma pack_B_cabecera (c : ClienteIoT) (tipo : TipoMensaje) :
  0 ≤ id c ≤ 63 → pack_B (cabecera c tipo) = Ok [cabecera c tipo].
Proof.
  intros Hid. unfold pack_B, cabecera.
  assert (0 ≤ Z.lor (Z.shiftl (id c) 2) (value tipo) < 2 ^ 8) as Hr.
  { apply lor_acotado; [lia | | destruct tipo; simpl; lia].
    rewrite Z.shiftl_mul_pow2 by lia. lia. }
  destruct (Z.leb_spec 0 (Z.lor (Z.shiftl (id c) 2) (value tipo))); [| lia].
  destruct (Z.leb_spec (Z.lor (Z.shiftl (id c) 2) (value tipo)) 255); [| lia].
  reflexivity.
Qed.

(** [crear_fcm] and [crear_kum] do finish, and return normally, as soon as
    the random source delivers two values passing the test of
    [generar_primo] and one more value (here: the next three). *)
Lemma crear_parametros_retorna (nombre : string) (tipo : TipoMensaje) (w : Mundo)
    (a b c : Z) (resto : list Z) :
  azar w = a :: b :: c :: resto →
  pasa_prueba (a mod 2 ^ 16) = true → pasa_prueba (b mod 2 ^ 16) = true →
  0 ≤ id (self w) ≤ 63 →
  ∃ w', crear_parametros nombre tipo w = Some (Ok Creado, w') ∧ azar w' = resto.
Proof.
  intros Haz Ha Hb Hid.
  unfold crear_parametros, generar_primo, set_p, set_q, set_s, get_self, put_self,
    getrandbits, open_wb, write, lift, mbind, M_bind, mret, M_ret.
  rewrite Haz. cbn [bucle_primo]. rewrite Ha.
  cbn [self disco azar bucle_primo]. rewrite Hb.
  cbn [self disco azar].
  set (c' := generar_llaves _).
  assert (id c' = id (self w) ∧ p c' = a mod 2 ^ 16 ∧ q c' = b mod 2 ^ 16 ∧
          s c' = c mod 2 ^ 64) as (Eid & Ep & Eq & Es).
  { subst c'.
    match goal with
    | |- context [generar_llaves ?x] =>
        destruct (generar_llaves_cliente x) as (_ & E1 & _ & E2 & E3 & E4)
    end.
    rewrite E1, E2, E3, E4. repeat split. }
  rewrite pack_B_cabecera by lia.
  pose proof (Z.mod_pos_bound a (2 ^ 16) ltac:(lia)).
  pose proof (Z.mod_pos_bound b (2 ^ 16) ltac:(lia)).
  pose proof (Z.mod_pos_bound c (2 ^ 64) ltac:(lia)).
  unfold pack_QQQ, mbind, resultado_bind.
  rewrite !pack_Q_cabe by (unfold cabe_en_64; lia).
  eexists. split; reflexivity.
Qed.

Lemma mundo_tras_rm_alcanzable : mundo_alcanzable mundo_tras_rm.
Proof.
  unfold mundo_tras_rm.
  apply (alcanzable_metodo (crear_rm [104; 105])
           (tras crear_fcm (tras init mundo_ejemplo)) (Ok Creado));
    [| constructor | vm_compute; reflexivity].
  apply (alcanzable_metodo crear_fcm (tras init mundo_ejemplo) (Ok Creado));
    [| constructor | vm_compute; reflexivity].
  apply (alcanzable_nuevo mundo_ejemplo (Ok tt)). vm_compute. reflexivity.
Qed.

(** C3, as the code has it: [crear_fcm] and [crear_kum], whenever they
    finish, have installed a new table of four keys derived from the new
    (P, Q, S) and have left [llave_actual] exactly as it was; it is 0
    afterwards when the call is made on a device fresh from [__init__]. *)
Theorem crear_fcm_kum_conservan_llave_actual
    (w w' : Mundo) (r : resultado Aviso) :
  crear_fcm w = Some (r, w') ∨ crear_kum w = Some (r, w') →
  llave_actual (self w') = llave_actual (self w) ∧
  llaves (self w') =
    Servidor.generar_llaves (p (self w')) (q (self w')) (s (self w')) ∧
  length (llaves (self w')) = 4%nat ∧
  (∀ w0 r0, init w0 = Some (r0, w) → llave_actual (self w') = 0).
Proof.
  intros Hrun.
  assert (crear_parametros "fcm.bin" FCM w = Some (r, w') ∨
          crear_parametros "kum.bin" KUM w = Some (r, w')) as Hpar by exact Hrun.
  assert (∃ P Q S, self w' = generar_llaves
                     (mkCliente (id (self w)) (llaves (self w))
                                (llave_actual (self w)) P Q S)) as (P & Q & S & Hself).
  { destruct Hpar as [H | H];
      destruct (crear_parametros_fin _ _ w r w' H) as (P & Q & S & _ & _ & _ & E);
      now exists P, Q, S. }
  destruct (generar_llaves_cliente
              (mkCliente (id (self w)) (llaves (self w)) (llave_actual (self w)) P Q S))
    as (Hll & _ & Hidx & Hp & Hq & Hs).
  rewrite <- Hself in Hll, Hidx, Hp, Hq, Hs.
  cbn [id llaves llave_actual p q s] in Hll, Hidx, Hp, Hq, Hs.
  rewrite Hp, Hq, Hs, Hll, Hidx.
  split; [reflexivity |]. split; [reflexivity |]. split.
  - now rewrite generar_llaves_servidor_spec.
  - intros w0 r0 Hinit. destruct (init_fin w0 r0 w Hinit) as (i & _ & ->). reflexivity.
Qed.

Lemma crear_fcm_kum_conservan_llave_actual_witness :
  llave_actual (self (tras crear_kum mundo_tras_rm)) =
  llave_actual (self mundo_tras_rm) ∧
  length (llaves (self (tras crear_kum mundo_tras_rm))) = 4%nat.
Proof.
  destruct (crear_fcm_kum_conservan_llave_actual
              mundo_tras_rm (tras crear_kum mundo_tras_rm) (Ok Creado))
    as (Hidx & _ & Hlen & _).
  - right. vm_compute. reflexivity.
  - split; [exact Hidx | exact Hlen].
Defined.

(** C3 as stated fails: a device that has sent one Regular message has key
    index 1, and both [crear_kum] and [crear_fcm] return with the key index
    still 1, although the key table is new. *)
Lemma crear_fcm_kum_no_reinician_llave_actual :
  mundo_alcanzable mundo_tras_rm ∧
  llave_actual (self mundo_tras_rm) = 1 ∧
  (∃ w', crear_kum mundo_tras_rm = Some (Ok Creado, w') ∧
         llave_actual (self w') = 1 ∧ llave_actual (self w') ≠ 0 ∧
         llaves (self w') ≠ llaves (self mundo_tras_rm)) ∧
  (∃ w', crear_fcm mundo_tras_rm = Some (Ok Creado, w') ∧
         llave_actual (self w') = 1 ∧ llave_actual (self w') ≠ 0 ∧
         llaves (self w') ≠ llaves (self mundo_tras_rm)).
Proof.
  split; [exact mundo_tras_rm_alcanzable |].
  split; [vm_compute; reflexivity |].
  split.
  - exists (tras crear_kum mundo_tras_rm).
    split; [vm_compute; reflexivity |].
    split; [vm_compute; reflexivity |].
    split; vm_compute; discriminate.
  - exists (tras crear_fcm mundo_tras_rm).
    split; [vm_compute; reflexivity |].
    split; [vm_compute; reflexivity |].
    split; vm_compute; discriminate.
Qed.

End Dispositivo.

(** ** Keys fit in 64 bits *)

Lemma disco_de_bytes_singleton (nombre : string) (datos : list Z) :
  son_bytes datos → disco_de_bytes (<[nombre := datos]> ∅).
Proof.
  intros Hb n d Hl. apply lookup_insert_Some in Hl as [[_ <-] | [_ Hl]]; [exact Hb |].
  rewrite lookup_empty in Hl. discriminate Hl.
Qed.

Lemma tabla_ejemplo_alcanzable : tabla_alcanzable tabla_ejemplo.
Proof.
  unfold tabla_ejemplo. apply alcanzable_fcm; [| apply alcanzable_init].
  apply disco_de_bytes_singleton. vm_compute. repeat constructor; discriminate.
Qed.

(** C9: every key in a key table, on the device (after any sequence of
    method calls) and on the hub (after any sequence of handled files), is a
    non-negative integer below 2^64 and so packs into a 64-bit field without
    error.  The reason is the mask in [funcion_generacion], whose result fits
    whenever its second argument does, whatever the first is; the values
    [funcion_mezcla] and [funcion_mutacion] feed into it need not fit. *)
Theorem llaves_caben_en_64_bits (w : Cliente.Mundo) (t : Servidor.tabla) :
  mundo_alcanzable w → tabla_alcanzable t →
  (∀ k, k ∈ Cliente.llaves (Cliente.self w) →
        cabe_en_64 k ∧ pack_Q k = Ok (bytes_little 8 k)) ∧
  (∀ i registro k, t !! i = Some registro → k ∈ Servidor.llaves registro →
        cabe_en_64 k ∧ pack_Q k = Ok (bytes_little 8 k)) ∧
  (∀ x y, cabe_en_64 y →
        cabe_en_64 (Cliente.funcion_generacion x y) ∧
        cabe_en_64 (Servidor.funcion_generacion x y)) ∧
  (∃ P S, cabe_en_64 P ∧ cabe_en_64 S ∧
        ¬ cabe_en_64 (Cliente.funcion_mezcla P S) ∧
        ¬ cabe_en_64 (Cliente.funcion_mutacion S P) ∧
        cabe_en_64 (Cliente.funcion_generacion (Cliente.funcion_mezcla P S) P)).
Proof.
  intros Hw Ht. split; [| split; [| split]].
  - intros k Hk.
    destruct (mundo_alcanzable_ok w Hw) as (_ & _ & _ & Hcabe).
    assert (cabe_en_64 k) as Hc by (revert k Hk; apply Forall_forall, Hcabe).
    split; [exact Hc | now apply pack_Q_cabe].
  - intros i registro k Hi Hk.
    destruct (tabla_alcanzable_llaves t Ht i registro Hi) as (_ & Hcabe).
    assert (cabe_en_64 k) as Hc by (revert k Hk; apply Forall_forall, Hcabe).
    split; [exact Hc | now apply pack_Q_cabe].
  - intros x y Hy. split; now apply generacion_cabe.
  - exists 17, (2 ^ 63). unfold cabe_en_64. vm_compute.
    repeat split; try discriminate; intros [_ H]; discriminate H.
Qed.

Lemma llaves_caben_en_64_bits_witness :
  Forall cabe_en_64 (Cliente.llaves (Cliente.self mundo_tras_rm)) ∧
  (∀ registro, tabla_ejemplo !! 5 = Some registro →
               Forall cabe_en_64 (Servidor.llaves registro)).
Proof.
  destruct (llaves_caben_en_64_bits mundo_tras_rm tabla_ejemplo
              mundo_tras_rm_alcanzable tabla_ejemplo_alcanzable)
    as (Hc & Hs & _).
  split.
  - apply Forall_forall. intros k Hk. apply (Hc k Hk).
  - intros registro Hr. apply Forall_forall. intros k Hk. apply (Hs 5 registro k Hr Hk).
Defined.

(** ** The end-to-end scenario *)

(** The hub, given the files the example device wrote, registers it, decodes
    its Regular message to the text sent, and ends with its table holding the
    device's own key table. *)
Example extremo_a_extremo :
  let disco := Cliente.disco mundo_tras_rm in
  let t := snd (Servidor.procesar_fcm disco ∅) in
  Servidor.procesar_rm disco t = (Ok (Servidor.MensajeDescifrado [104; 105]), t) ∧
  Servidor.llaves <$> t !! 5 = Some (Cliente.llaves (Cliente.self mundo_tras_rm)).
Proof. vm_compute. split; reflexivity. Qed.

(** * Further properties of the two programs *)

(** ** Packed integers *)

Lemma length_bytes_little (n : nat) (v : Z) : length (bytes_little n v) = n.
Proof. revert v. induction n as [| n IH]; intros v; simpl; [| rewrite IH]; reflexivity. Qed.

Lemma son_bytes_bytes_little (n : nat) (v : Z) : son_bytes (bytes_little n v).
Proof.
  revert v. induction n as [| n IH]; intros v; simpl; constructor.
  - apply Z.mod_pos_bound. lia.
  - apply IH.
Qed.

Lemma from_bytes_little_bytes_little (n : nat) (v : Z) :
  from_bytes_little (bytes_little n v) = v mod 256 ^ Z.of_nat n.
Proof.
  revert v. induction n as [| n IH]; intros v.
  - simpl. now rewrite Z.mod_1_r.
  - cbn [bytes_little from_bytes_little]. rewrite IH.
    rewrite Nat2Z.inj_succ, Z.pow_succ_r by lia.
    rewrite Z.rem_mul_r; [reflexivity | lia |].
    apply Z.pow_pos_nonneg; lia.
Qed.

(** [struct.unpack('Q', struct.pack('Q', v))[0] == v] *)
Lemma unpack_pack_Q (v : Z) :
  cabe_en_64 v → unpack_Q (bytes_little 8 v) = Ok v.
Proof.
  intros Hv. unfold unpack_Q. rewrite length_bytes_little.
  destruct (decide (8%nat = 8%nat)); [| congruence].
  rewrite from_bytes_little_bytes_little. f_equal.
  apply Z.mod_small. exact Hv.
Qed.

(** [struct.unpack('QQQ', struct.pack('QQQ', a, b, c)) == (a, b, c)] *)
Lemma unpack_pack_QQQ (a b c : Z) :
  cabe_en_64 a → cabe_en_64 b → cabe_en_64 c →
  pack_QQQ a b c = Ok (bytes_little 8 a ++ bytes_little 8 b ++ bytes_little 8 c) ∧
  unpack_QQQ (bytes_little 8 a ++ bytes_little 8 b ++ bytes_little 8 c) = Ok (a, b, c).
Proof.
  intros Ha Hb Hc. split.
  - unfold pack_QQQ, mbind, resultado_bind. now rewrite !pack_Q_cabe.
  - unfold unpack_QQQ. rewrite !length_app, !length_bytes_little.
    destruct (decide _) as [_ | Hne]; [| now destruct Hne].
    rewrite take_app_length' by now rewrite length_bytes_little.
    change 16%nat with (8 + 8)%nat. rewrite <- !drop_drop.
    rewrite !drop_app_length' by now rewrite length_bytes_little.
    rewrite take_app_length' by now rewrite length_bytes_little.
    rewrite take_ge by (rewrite length_bytes_little; lia).
    rewrite !from_bytes_little_bytes_little.
    unfold cabe_en_64 in *. change (256 ^ Z.of_nat 8) with (2 ^ 64).
    now rewrite !Z.mod_small by lia.
Qed.

(** ** The cipher beyond the round trip of short texts *)

Lemma lstrip0_app_vacio (texto resto : list Z) :
  lstrip0 texto = [] → lstrip0 (texto ++ resto) = lstrip0 resto.
Proof.
  induction texto as [| c texto IH]; [reflexivity |].
  simpl. destruct (c =? 0); [exact IH | discriminate].
Qed.

Lemma lstrip0_app_no_vacio (texto resto : list Z) :
  lstrip0 texto ≠ [] → lstrip0 (texto ++ resto) = lstrip0 texto ++ resto.
Proof.
  induction texto as [| c texto IH]; [simpl; congruence |].
  simpl. destruct (c =? 0); [exact IH | reflexivity].
Qed.

(** NULs appended on the right do not survive [strip('\x00')]. *)
Lemma strip0_app_ceros (texto : list Z) (n : nat) :
  strip0 (texto ++ replicate n 0) = strip0 texto.
Proof.
  unfold strip0. destruct (lstrip0 texto) as [| c l] eqn:E.
  - rewrite lstrip0_app_vacio by exact E.
    rewrite <- (app_nil_r (replicate n 0)), lstrip0_ceros. reflexivity.
  - rewrite lstrip0_app_no_vacio by (rewrite E; discriminate).
    rewrite E, rev_app_distr, rev_replicate, lstrip0_ceros. reflexivity.
Qed.

Lemma ascii_son_bytes (datos : list Z) :
  Forall (λ b, 0 ≤ b < 0x80) datos → son_bytes datos.
Proof. intros H. eapply Forall_impl; [exact H | simpl; intros; lia]. Qed.

Lemma son_bytes_rev (datos : list Z) : son_bytes datos → son_bytes (rev datos).
Proof.
  intros Hb. apply Forall_forall. intros b Hin.
  apply list_elem_of_In, in_rev, list_elem_of_In in Hin.
  revert b Hin. apply Forall_forall, Hb.
Qed.

(** The padded block of an ASCII text: eight 7-bit bytes. *)
Lemma bloque_ascii (texto : list Z) :
  Forall (λ c, 0 ≤ c < 0x80) texto →
  length (take 8 (ljust 8 texto)) = 8%nat ∧
  Forall (λ b, 0 ≤ b < 0x80) (take 8 (ljust 8 texto)).
Proof.
  intros Ha. unfold ljust. split.
  - rewrite length_take, length_app, length_replicate. lia.
  - apply Forall_take, Forall_app. split; [exact Ha |].
    apply Forall_forall. intros b Hb. apply elem_of_replicate in Hb. lia.
Qed.

Lemma from_bytes_big_cabe (datos : list Z) :
  son_bytes datos → length datos = 8%nat → cabe_en_64 (from_bytes_big datos).
Proof.
  intros Hb Hlen. unfold cabe_en_64. rewrite from_bytes_big_little.
  pose proof (from_bytes_little_acotado (rev datos) (son_bytes_rev _ Hb)) as H.
  rewrite length_rev, Hlen in H. exact H.
Qed.

(** What the device computes for an ASCII text, and what the hub gets back
    from it under the same key: the padded block, decoded and stripped. *)
Lemma cifrar_descifrar_bloque (mensaje : list Z) (llave : Z) :
  Forall (λ c, 0 ≤ c < 0x80) mensaje → cabe_en_64 llave →
  let bloque := take 8 (ljust 8 mensaje) in
  let cifrado := Z.land (Z.lor (Z.shiftr (Z.lxor (from_bytes_big bloque) llave) 4)
                               (Z.shiftl (Z.lxor (from_bytes_big bloque) llave) 60))
                        MASK64 in
  Cliente.cifrar_mensaje mensaje llave = Ok cifrado ∧
  cabe_en_64 cifrado ∧
  Z.land (Z.lor (Z.shiftl cifrado 4) (Z.shiftr cifrado 60)) MASK64 =
    Z.lxor (from_bytes_big bloque) llave ∧
  Servidor.descifrar_mensaje cifrado llave = Ok (strip0 bloque).
Proof.
  intros Ha Hk bloque cifrado.
  destruct (bloque_ascii mensaje Ha) as (Hlen & H7). fold bloque in Hlen, H7.
  pose proof (ascii_son_bytes bloque H7) as Hb.
  pose proof (from_bytes_big_cabe bloque Hb Hlen) as Hnum.
  assert (cabe_en_64 (Z.lxor (from_bytes_big bloque) llave)) as Hxor.
  { unfold cabe_en_64 in *. apply lxor_acotado; lia. }
  pose proof (rotacion_inversa _ Hxor) as Hrot. cbv zeta in Hrot. fold cifrado in Hrot.
  split; [| split; [| split]].
  - unfold Cliente.cifrar_mensaje. rewrite (encode_utf8_ascii mensaje Ha). reflexivity.
  - apply land_MASK64_cabe.
  - exact Hrot.
  - unfold Servidor.descifrar_mensaje. rewrite Hrot.
    rewrite Z.lxor_assoc, Z.lxor_nilpotent, Z.lxor_0_r.
    rewrite <- Hlen at 1. rewrite (to_bytes_from_bytes_big bloque Hb).
    unfold mbind, resultado_bind. now rewrite (decode_utf8_ascii bloque H7).
Qed.

(** For any ASCII text and 64-bit key, the hub recovers the first eight
    characters of what the device encrypted, without the NUL characters at
    either end: longer texts are cut, leading and trailing NULs are lost. *)
Theorem descifrar_cifrar_ascii (mensaje : list Z) (llave : Z) :
  Forall (λ c, 0 ≤ c < 0x80) mensaje → cabe_en_64 llave →
  ∃ cifrado,
    Cliente.cifrar_mensaje mensaje llave = Ok cifrado ∧
    Servidor.descifrar_mensaje cifrado llave = Ok (strip0 (take 8 mensaje)).
Proof.
  intros Ha Hk.
  destruct (cifrar_descifrar_bloque mensaje llave Ha Hk) as (Hc & _ & _ & Hd).
  eexists. split; [exact Hc |]. rewrite Hd. f_equal.
  unfold ljust. destruct (Nat.le_gt_cases 8 (length mensaje)) as [Hlargo | Hcorto].
  - replace (8 - length mensaje)%nat with 0%nat by lia.
    simpl replicate. now rewrite app_nil_r.
  - rewrite !take_ge by (rewrite ?length_app, ?length_replicate; lia).
    apply strip0_app_ceros.
Qed.

Lemma descifrar_cifrar_ascii_witness :
  ∃ cifrado,
    Cliente.cifrar_mensaje [0; 116; 101; 109; 112; 101; 114; 97; 116; 117; 114; 97] 77
      = Ok cifrado ∧
    Servidor.descifrar_mensaje cifrado 77 = Ok [116; 101; 109; 112; 101; 114; 97].
Proof.
  apply (descifrar_cifrar_ascii
           [0; 116; 101; 109; 112; 101; 114; 97; 116; 117; 114; 97] 77).
  - repeat constructor; lia.
  - unfold cabe_en_64. lia.
Defined.

(** One known text and its ciphertext give the key away: rotating the
    ciphertext back and XOR-ing the padded text yields the key, so under two
    different 64-bit keys the same text never has the same ciphertext. *)
Theorem llave_recuperable (mensaje : list Z) (llave cifrado : Z) :
  Forall (λ c, 0 ≤ c < 0x80) mensaje → cabe_en_64 llave →
  Cliente.cifrar_mensaje mensaje llave = Ok cifrado →
  Z.lxor (Z.land (Z.lor (Z.shiftl cifrado 4) (Z.shiftr cifrado 60)) MASK64)
         (from_bytes_big (take 8 (ljust 8 mensaje))) = llave ∧
  ∀ otra, cabe_en_64 otra →
          Cliente.cifrar_mensaje mensaje otra = Ok cifrado → otra = llave.
Proof.
  intros Ha Hk Hc.
  assert (∀ k c, cabe_en_64 k → Cliente.cifrar_mensaje mensaje k = Ok c →
            Z.lxor (Z.land (Z.lor (Z.shiftl c 4) (Z.shiftr c 60)) MASK64)
                   (from_bytes_big (take 8 (ljust 8 mensaje))) = k) as Hrec.
  { intros k c Hk' Hc'.
    destruct (cifrar_descifrar_bloque mensaje k Ha Hk') as (Hc2 & _ & Hrot & _).
    rewrite Hc' in Hc2. injection Hc2 as ->. rewrite Hrot.
    rewrite (Z.lxor_comm (from_bytes_big _) k), Z.lxor_assoc, Z.lxor_nilpotent.
    apply Z.lxor_0_r. }
  split; [now apply Hrec |].
  intros otra Ho Hco. rewrite <- (Hrec otra cifrado Ho Hco). now apply Hrec.
Qed.

Lemma llave_recuperable_witness :
  Z.lxor (Z.land (Z.lor (Z.shiftl 3927772223024136193 4)
                        (Z.shiftr 3927772223024136193 60)) MASK64)
         (from_bytes_big (take 8 (ljust 8 [104; 105]))) = 21674041358155795.
Proof.
  destruct (llave_recuperable [104; 105] 21674041358155795 3927772223024136193)
    as [H _].
  - repeat constructor; lia.
  - unfold cabe_en_64. lia.
  - vm_compute. reflexivity.
  - exact H.
Defined.

(** ** [generar_primo] *)

Lemma pasa_prueba_desde_17 (num : Z) : Cliente.pasa_prueba num = true → 17 ≤ num.
Proof.
  intros H. destruct (Z.lt_ge_cases num 17) as [Hlt | Hge]; [| exact Hge].
  exfalso. unfold Cliente.pasa_prueba in H. apply andb_true_iff in H as [H1 H2].
  apply Z.ltb_lt in H1.
  assert (num = 2 ∨ num = 3 ∨ num = 4 ∨ num = 5 ∨ num = 6 ∨ num = 7 ∨ num = 8 ∨
          num = 9 ∨ num = 10 ∨ num = 11 ∨ num = 12 ∨ num = 13 ∨ num = 14 ∨
          num = 15 ∨ num = 16) as Hc by lia.
  repeat (destruct Hc as [-> | Hc]; [discriminate H2 |]).
  subst num. discriminate H2.
Qed.

Lemma pasa_prueba_impar (num : Z) : Cliente.pasa_prueba num = true → Z.odd num = true.
Proof.
  unfold Cliente.pasa_prueba. intros H. apply andb_true_iff in H as [_ H].
  simpl in H. apply andb_true_iff in H as [H _].
  apply negb_true_iff, Z.eqb_neq in H.
  rewrite Zmod_odd in H. destruct (Z.odd num); [reflexivity | congruence].
Qed.

Lemma bucle_primo_descarta (bits : Z) (crudos : list Z) (num : Z) (resto : list Z) :
  Cliente.bucle_primo bits crudos = Some (num, resto) →
  ∃ rechazados crudo,
    crudos = rechazados ++ crudo :: resto ∧ num = crudo mod 2 ^ bits ∧
    Forall (λ x, Cliente.pasa_prueba (x mod 2 ^ bits) = false) rechazados.
Proof.
  induction crudos as [| x crudos IH]; [discriminate |].
  simpl. destruct (Cliente.pasa_prueba (x mod 2 ^ bits)) eqn:E.
  - intros [= <- <-]. exists [], x. repeat split. constructor.
  - intros H. destruct (IH H) as (rech & crudo & -> & Hnum & Hrech).
    exists (x :: rech), crudo. repeat split; [exact Hnum |]. now constructor.
Qed.

(** Whenever [generar_primo] returns, it returns the first random value (in
    order of drawing, reduced to [bits] bits) that is greater than 1 and
    has no divisor among 2, 3, 5, 7, 11, 13: an odd number that is at least
    17, since the test rejects those six primes themselves, and not
    necessarily a prime, since it accepts 289 = 17 * 17.  So it can return
    only if [bits] is at least 5, and it never raises or touches the object
    or the files. *)
Theorem generar_primo_resultado
    (bits : Z) (w w' : Cliente.Mundo) (r : resultado Z) :
  0 ≤ bits →
  Cliente.generar_primo bits w = Some (r, w') →
  ∃ num rechazados crudo,
    r = Ok num ∧
    Cliente.azar w = rechazados ++ crudo :: Cliente.azar w' ∧
    num = crudo mod 2 ^ bits ∧
    Forall (λ x, Cliente.pasa_prueba (x mod 2 ^ bits) = false) rechazados ∧
    17 ≤ num < 2 ^ bits ∧ Z.odd num = true ∧ 5 ≤ bits ∧
    Forall (λ d, num mod d ≠ 0) [2; 3; 5; 7; 11; 13] ∧
    Cliente.self w' = Cliente.self w ∧ Cliente.disco w' = Cliente.disco w ∧
    Cliente.pasa_prueba 13 = false ∧ Cliente.pasa_prueba (17 * 17) = true.
Proof.
  intros Hbits. unfold Cliente.generar_primo.
  destruct (Cliente.bucle_primo bits (Cliente.azar w)) as [[num resto] |] eqn:E;
    [| discriminate].
  intros [= <- <-]. cbn [Cliente.self Cliente.disco Cliente.azar].
  destruct (bucle_primo_descarta _ _ _ _ E) as (rech & crudo & Haz & Hnum & Hrech).
  destruct (bucle_primo_rango _ _ _ _ Hbits E) as (Hrango & Hpasa).
  pose proof (pasa_prueba_desde_17 num Hpasa) as H17.
  exists num, rech, crudo.
  repeat split; try assumption; try lia; try reflexivity.
  - now apply pasa_prueba_impar.
  - destruct (Z.lt_ge_cases bits 5) as [Hlt | Hge]; [| exact Hge].
    assert (2 ^ bits ≤ 2 ^ 4) by (apply Z.pow_le_mono_r; lia). lia.
  - unfold Cliente.pasa_prueba in Hpasa. apply andb_true_iff in Hpasa as [_ Hd].
    rewrite forallb_forall in Hd. apply Forall_forall. intros d Hin.
    apply list_elem_of_In, Hd, negb_true_iff, Z.eqb_neq in Hin. exact Hin.
Qed.

Lemma generar_primo_resultado_witness :
  ∃ num rechazados crudo,
    Cliente.azar mundo_ejemplo = rechazados ++ crudo :: [19; 77; 23; 29; 99] ∧
    num = crudo mod 2 ^ 16 ∧ 17 ≤ num < 2 ^ 16.
Proof.
  destruct (generar_primo_resultado 16 mundo_ejemplo
              (Cliente.mkMundo (Cliente.self mundo_ejemplo) (Cliente.disco mundo_ejemplo)
                               [19; 77; 23; 29; 99]) (Ok 17))
    as (num & rech & crudo & _ & Haz & Hnum & _ & Hr & _); [lia | reflexivity |].
  exists num, rech, crudo. cbn [Cliente.azar] in Haz. repeat split; assumption || lia.
Defined.

(** ** [funcion_generacion] on values wider than 64 bits *)

(** The rotation of [funcion_generacion], by fields of [x]. *)
Lemma generacion_rotado_campos (z : Z) :
  Z.land (Z.lor (Z.shiftr z 32) (Z.shiftl z 32)) MASK64 =
  Z.lor (Z.lor (Z.land (Z.shiftr z 32) 0xFFFFFFFF)
               (Z.shiftl (Z.land z 0xFFFFFFFF) 32))
        (Z.shiftl (Z.land (Z.shiftr z 64) 0xFFFFFFFF) 32).
Proof.
  rewrite MASK64_ones. change 0xFFFFFFFF with (Z.ones 32).
  apply Z.bits_inj'. intros i Hi.
  rewrite Z.land_spec, !Z.lor_spec, (Z.ones_spec 64 i) by lia.
  rewrite Z.shiftr_spec, !Z.shiftl_spec by lia.
  rewrite Z.land_spec, Z.shiftr_spec, (Z.ones_spec 32 i) by lia.
  destruct (Z.lt_ge_cases i 32) as [Hlo | Hhi].
  - rewrite !(Z.testbit_neg_r _ (i - 32)) by lia.
    rewrite !bool_decide_eq_true_2 by lia.
    now rewrite !orb_false_r, !andb_true_r.
  - rewrite !Z.land_spec, Z.shiftr_spec, (Z.ones_spec 32 (i - 32)) by lia.
    replace (i - 32 + 64) with (i + 32) by lia.
    rewrite (bool_decide_eq_false_2 (i < 32)) by lia.
    rewrite andb_false_r, orb_false_l.
    destruct (Z.lt_ge_cases i 64) as [Hlo2 | Hhi2].
    + rewrite !bool_decide_eq_true_2 by lia. rewrite !andb_true_r. apply orb_comm.
    + rewrite !bool_decide_eq_false_2 by lia. now rewrite !andb_false_r.
Qed.

(** Reducing [z] modulo 2^64 keeps its two low fields and clears the
    third. *)
Lemma campos_mod_64 (z : Z) :
  Z.land (Z.shiftr (z mod 2 ^ 64) 32) 0xFFFFFFFF = Z.land (Z.shiftr z 32) 0xFFFFFFFF ∧
  Z.land (z mod 2 ^ 64) 0xFFFFFFFF = Z.land z 0xFFFFFFFF ∧
  Z.land (Z.shiftr (z mod 2 ^ 64) 64) 0xFFFFFFFF = 0.
Proof.
  change 0xFFFFFFFF with (Z.ones 32).
  repeat split; apply Z.bits_inj'; intros i Hi;
    rewrite ?Z.bits_0, !Z.land_spec, ?Z.shiftr_spec, (Z.ones_spec 32 i) by lia.
  - destruct (Z.lt_ge_cases i 32) as [Hlo | Hhi].
    + now rewrite Z.mod_pow2_bits_low by lia.
    + rewrite bool_decide_eq_false_2 by lia. now rewrite !andb_false_r.
  - destruct (Z.lt_ge_cases i 32) as [Hlo | Hhi].
    + now rewrite Z.mod_pow2_bits_low by lia.
    + rewrite bool_decide_eq_false_2 by lia. now rewrite !andb_false_r.
  - now rewrite Z.mod_pow2_bits_high by lia.
Qed.

(** The key is assembled from three 32-bit fields of [x]: bits 32-63 go to
    the low half, bits 0-31 to the high half, and bits 64-95, which the
    unmasked [funcion_mezcla] can produce, are OR-ed into the high half as
    well; bits 96 and above are dropped.  So it is the 64-bit rotation by 32
    for [x] below 2^64, where it undoes itself, and reducing a wider [x]
    modulo 2^64 first leaves the key as it is exactly when every bit set
    among bits 64-95 of [x] is also set at the same place among bits 0-31:
    for the mix of P = 17 and S = 2^63 the key changes, for that of P = 17
    and S = 2^48 + 1, which is wider than 64 bits too, it does not. *)
Theorem funcion_generacion_campos (x y : Z) :
  Servidor.funcion_generacion x y =
    Z.lxor (Z.lor (Z.lor (Z.land (Z.shiftr x 32) 0xFFFFFFFF)
                         (Z.shiftl (Z.land x 0xFFFFFFFF) 32))
                  (Z.shiftl (Z.land (Z.shiftr x 64) 0xFFFFFFFF) 32)) y ∧
  Cliente.funcion_generacion x y = Servidor.funcion_generacion x y ∧
  Servidor.funcion_generacion (x mod 2 ^ 64) y =
    Z.lxor (Z.lor (Z.land (Z.shiftr x 32) 0xFFFFFFFF)
                  (Z.shiftl (Z.land x 0xFFFFFFFF) 32)) y ∧
  (Servidor.funcion_generacion (x mod 2 ^ 64) y = Servidor.funcion_generacion x y ↔
   Z.lor (Z.land x 0xFFFFFFFF) (Z.land (Z.shiftr x 64) 0xFFFFFFFF) =
   Z.land x 0xFFFFFFFF) ∧
  (0 ≤ x < 2 ^ 64 →
     Servidor.funcion_generacion (Servidor.funcion_generacion x 0) 0 = x) ∧
  (¬ cabe_en_64 (Servidor.funcion_mezcla 17 (2 ^ 63)) ∧
   Servidor.funcion_generacion (Servidor.funcion_mezcla 17 (2 ^ 63)) 19 ≠
   Servidor.funcion_generacion (Servidor.funcion_mezcla 17 (2 ^ 63) mod 2 ^ 64) 19) ∧
  (¬ cabe_en_64 (Servidor.funcion_mezcla 17 (2 ^ 48 + 1)) ∧
   Servidor.funcion_generacion (Servidor.funcion_mezcla 17 (2 ^ 48 + 1)) 19 =
   Servidor.funcion_generacion (Servidor.funcion_mezcla 17 (2 ^ 48 + 1) mod 2 ^ 64) 19).
Proof.
  assert (Servidor.funcion_generacion x y =
          Z.lxor (Z.lor (Z.lor (Z.land (Z.shiftr x 32) 0xFFFFFFFF)
                               (Z.shiftl (Z.land x 0xFFFFFFFF) 32))
                        (Z.shiftl (Z.land (Z.shiftr x 64) 0xFFFFFFFF) 32)) y) as Hx.
  { unfold Servidor.funcion_generacion. cbv zeta. now rewrite generacion_rotado_campos. }
  assert (Servidor.funcion_generacion (x mod 2 ^ 64) y =
          Z.lxor (Z.lor (Z.land (Z.shiftr x 32) 0xFFFFFFFF)
                        (Z.shiftl (Z.land x 0xFFFFFFFF) 32)) y) as Hr.
  { unfold Servidor.funcion_generacion. cbv zeta. rewrite generacion_rotado_campos.
    destruct (campos_mod_64 x) as (-> & -> & ->).
    now rewrite Z.shiftl_0_l, Z.lor_0_r. }
  split; [exact Hx |]. split; [reflexivity |]. split; [exact Hr |].
  split; [| split; [| split]].
  - rewrite Hx, Hr.
    set (f1 := Z.land (Z.shiftr x 32) 0xFFFFFFFF).
    set (f2 := Z.land x 0xFFFFFFFF).
    set (f3 := Z.land (Z.shiftr x 64) 0xFFFFFFFF).
    assert (Z.shiftr f1 32 = 0) as Hf1.
    { subst f1. change 0xFFFFFFFF with (Z.ones 32).
      rewrite Z.land_ones, Z.shiftr_div_pow2 by lia.
      apply Z.div_small, Z.mod_pos_bound. lia. }
    split.
    + intros Heq.
      apply (f_equal (λ v, Z.lxor v y)) in Heq.
      rewrite !Z.lxor_assoc, !Z.lxor_nilpotent, !Z.lxor_0_r in Heq.
      apply (f_equal (λ v, Z.shiftr v 32)) in Heq.
      rewrite !Z.shiftr_lor, Hf1, !Z.shiftr_shiftl_l in Heq by lia.
      change (32 - 32) with 0 in Heq.
      rewrite !Z.shiftl_0_r, !Z.lor_0_l in Heq. now symmetry.
    + intros Heq. f_equal.
      rewrite <- Z.lor_assoc, <- Z.shiftl_lor, Heq. reflexivity.
  - intros Hx64. unfold Servidor.funcion_generacion. cbv zeta.
    rewrite !Z.lxor_0_r, MASK64_ones.
    apply Z.bits_inj'. intros i Hi.
    rewrite Z.land_spec, Z.lor_spec, (Z.ones_spec 64 i) by lia.
    rewrite Z.shiftr_spec, Z.shiftl_spec by lia.
    destruct (Z.lt_ge_cases i 64) as [Hlo2 | Hhi2].
    + rewrite bool_decide_eq_true_2, andb_true_r by lia.
      destruct (Z.lt_ge_cases i 32) as [Hlo | Hhi].
      * rewrite (Z.testbit_neg_r _ (i - 32)), orb_false_r by lia.
        rewrite Z.land_spec, Z.lor_spec, (Z.ones_spec 64 (i + 32)) by lia.
        rewrite Z.shiftr_spec, Z.shiftl_spec by lia.
        rewrite bool_decide_eq_true_2, andb_true_r by lia.
        rewrite (bits_altos x 64 (i + 32 + 32)) by lia.
        rewrite orb_false_l. f_equal. lia.
      * rewrite !Z.land_spec, !Z.lor_spec by lia.
        rewrite (Z.ones_spec 64 (i + 32)), (Z.ones_spec 64 (i - 32)) by lia.
        rewrite !Z.shiftr_spec, !Z.shiftl_spec by lia.
        rewrite (bool_decide_eq_false_2 (i + 32 < 64)) by lia.
        rewrite (bool_decide_eq_true_2 (i - 32 < 64)) by lia.
        rewrite andb_false_r, andb_true_r, orb_false_l.
        rewrite (Z.testbit_neg_r _ (i - 32 - 32)) by lia.
        rewrite orb_false_r. f_equal. lia.
    + rewrite bool_decide_eq_false_2, andb_false_r by lia.
      symmetry. apply (bits_altos x 64); lia.
  - unfold cabe_en_64. vm_compute. split; [intros [_ H] |]; discriminate.
  - unfold cabe_en_64. vm_compute. split; [intros [_ H]; discriminate | reflexivity].
Qed.

Lemma funcion_generacion_campos_witness :
  Servidor.funcion_generacion (Servidor.funcion_generacion 5046381 0) 0 = 5046381.
Proof.
  destruct (funcion_generacion_campos 5046381 0) as (_ & _ & _ & _ & H & _).
  apply H. lia.
Defined.

(** ** The device's methods, case by case *)

Section Metodos.

Import Cliente.

(** [crear_rm] in full: what it returns and the world it leaves, by the
    first step that fails, if any. *)
Lemma crear_rm_casos (mensaje : list Z) (w : Mundo) :
  let c := self w in
  crear_rm mensaje w =
  match llaves c with
  | [] => Some (Ok PrimeroFCM, w)
  | _ =>
    match subscript (llaves c) (llave_actual c) with
    | Raise e => Some (Raise e, w)
    | Ok llave =>
      match cifrar_mensaje mensaje llave with
      | Raise e => Some (Raise e, w)
      | Ok cifrado =>
        match pack_B (cabecera c RM) with
        | Raise e => Some (Raise e, mkMundo c (<["rm.bin" := []]> (disco w)) (azar w))
        | Ok cab =>
          match pack_B (llave_actual c) with
          | Raise e =>
              Some (Raise e, mkMundo c (<["rm.bin" := cab]> (disco w)) (azar w))
          | Ok idx =>
            match pack_Q cifrado with
            | Raise e =>
                Some (Raise e, mkMundo c (<["rm.bin" := cab ++ idx]> (disco w)) (azar w))
            | Ok cif =>
                Some (Ok Creado,
                      mkMundo (mkCliente (id c) (llaves c) ((llave_actual c + 1) mod 4)
                                         (p c) (q c) (s c))
                              (<["rm.bin" := (cab ++ idx) ++ cif]> (disco w)) (azar w))
            end
          end
        end
      end
    end
  end.
Proof.
  intros c. subst c.
  unfold crear_rm, get_self, put_self, open_wb, write, lift, mbind, M_bind, mret, M_ret.
  destruct (llaves (self w)) as [| k0 ks] eqn:Ell; [reflexivity |].
  destruct (subscript (k0 :: ks) (llave_actual (self w))) as [llave | e]; [| reflexivity].
  destruct (cifrar_mensaje mensaje llave) as [cifrado | e]; [| reflexivity].
  cbn [self disco azar].
  destruct (pack_B (cabecera (self w) RM)) as [cab | e]; [| reflexivity].
  destruct (pack_B (llave_actual (self w))) as [idx | e].
  - destruct (pack_Q cifrado) as [cif | e].
    + cbn [self disco azar].
      rewrite !lookup_insert_eq. simpl default. now rewrite !insert_insert_eq.
    + cbn [self disco azar].
      rewrite !lookup_insert_eq. simpl default. now rewrite !insert_insert_eq.
  - cbn [self disco azar].
    rewrite !lookup_insert_eq. simpl default. now rewrite !insert_insert_eq.
Qed.

(** [crear_fcm] and [crear_kum] in full. *)
Lemma crear_parametros_casos (nombre : string) (tipo : TipoMensaje) (w : Mundo) :
  crear_parametros nombre tipo w =
  match bucle_primo 16 (azar w) with
  | None => None
  | Some (P, az1) =>
    match bucle_primo 16 az1 with
    | None => None
    | Some (Q, az2) =>
      match az2 with
      | [] => None
      | x :: az3 =>
        let c := generar_llaves
                   (mkCliente (id (self w)) (llaves (self w)) (llave_actual (self w))
                              P Q (x mod 2 ^ 64)) in
        match pack_B (cabecera c tipo) with
        | Raise e => Some (Raise e, mkMundo c (<[nombre := []]> (disco w)) az3)
        | Ok cab =>
          match pack_QQQ (p c) (q c) (s c) with
          | Raise e => Some (Raise e, mkMundo c (<[nombre := cab]> (disco w)) az3)
          | Ok par => Some (Ok Creado, mkMundo c (<[nombre := cab ++ par]> (disco w)) az3)
          end
        end
      end
    end
  end.
Proof.
  unfold crear_parametros, generar_primo, set_p, set_q, set_s, get_self, put_self,
    getrandbits, open_wb, write, lift, mbind, M_bind, mret, M_ret.
  destruct (bucle_primo 16 (azar w)) as [[P az1] |]; [| reflexivity].
  cbn [self disco azar].
  destruct (bucle_primo 16 az1) as [[Q az2] |]; [| reflexivity].
  cbn [self disco azar id llaves llave_actual p q s].
  destruct az2 as [| x az3]; [reflexivity |].
  cbn [self disco azar id llaves llave_actual p q s]. cbv zeta.
  destruct (pack_B _) as [cab | e]; [| reflexivity].
  destruct (pack_QQQ _ _ _) as [par | e].
  - cbn [self disco azar].
    rewrite !lookup_insert_eq. simpl default. now rewrite !insert_insert_eq.
  - cbn [self disco azar].
    rewrite !lookup_insert_eq. simpl default. now rewrite !insert_insert_eq.
Qed.


Lemma cabecera_campos (c : ClienteIoT) (tipo : TipoMensaje) :
  0 ≤ id c ≤ 63 →
  Z.shiftr (cabecera c tipo) 2 = id c ∧ Z.land (cabecera c tipo) 3 = value tipo.
Proof.
  intros Hid. unfold cabecera. split.
  - rewrite Z.shiftr_lor, Z.shiftr_shiftl_l by lia.
    replace (Z.shiftr (value tipo) 2) with 0 by (destruct tipo; reflexivity).
    rewrite Z.lor_0_r. apply Z.shiftl_0_r.
  - rewrite Z.land_lor_distr_l.
    replace (Z.land (value tipo) 3) with (value tipo) by (destruct tipo; reflexivity).
    change 3 with (Z.ones 2). rewrite Z.land_ones, Z.shiftl_mul_pow2 by lia.
    rewrite Z.mod_mul by lia. apply Z.lor_0_l.
Qed.

Lemma subscript_en_rango {A} (lista : list A) (i : Z) :
  0 ≤ i < Z.of_nat (length lista) →
  ∃ x, subscript lista i = Ok x ∧ lista !! Z.to_nat i = Some x.
Proof.
  intros Hi. unfold subscript.
  destruct (Z.ltb_spec i 0); [lia |].
  destruct (Z.leb_spec 0 i); [| lia].
  destruct (Z.ltb_spec i (Z.of_nat (length lista))); [| lia]. simpl.
  destruct (lista !! Z.to_nat i) as [x |] eqn:E; [now exists x |].
  apply lookup_ge_None in E. lia.
Qed.

Lemma encode_utf8_raise (texto : list Z) (e : Excepcion) :
  encode_utf8 texto = Raise e → e = UnicodeEncodeError.
Proof.
  induction texto as [| c texto IH]; [discriminate |].
  simpl. unfold mbind, resultado_bind.
  destruct (encode_cp c) as [bs | e'] eqn:Ec.
  - destruct (encode_utf8 texto) as [bs' | e'']; [discriminate |].
    intros [= <-]. now apply IH.
  - intros [= <-]. unfold encode_cp in Ec.
    repeat (destruct (_ <? _) || destruct (_ && _)); congruence.
Qed.

Lemma cifrar_mensaje_casos (mensaje : list Z) (llave : Z) :
  match encode_utf8 mensaje with
  | Ok _ => ∃ cifrado, cifrar_mensaje mensaje llave = Ok cifrado ∧ cabe_en_64 cifrado
  | Raise _ => cifrar_mensaje mensaje llave = Raise UnicodeEncodeError
  end.
Proof.
  unfold cifrar_mensaje, mbind, resultado_bind.
  destruct (encode_utf8 mensaje) as [bs | e] eqn:E.
  - eexists. split; [reflexivity | apply land_MASK64_cabe].
  - now rewrite (encode_utf8_raise _ _ E).
Qed.

End Metodos.

(** ** The hub's handlers, case by case *)

Section Casos.

Import Servidor.

Lemma leer_parametros_casos (disco : archivos) (nombre : string) :
  leer_parametros disco nombre =
  match disco !! nombre with
  | None => Raise FileNotFoundError
  | Some [] => Raise StructError
  | Some (cab :: resto) =>
      if decide (24 ≤ length resto)%nat
      then Ok (cab, (from_bytes_little (take 8 resto),
                     from_bytes_little (take 8 (drop 8 resto)),
                     from_bytes_little (take 8 (drop 16 resto))))
      else Raise StructError
  end.
Proof.
  unfold leer_parametros, open_rb, mbind, resultado_bind.
  destruct (disco !! nombre) as [[| cab resto] |]; try reflexivity.
  change (take 1 (cab :: resto)) with [cab].
  change (drop 1 (cab :: resto)) with resto.
  cbn [unpack_B]. unfold unpack_QQQ. rewrite length_take.
  destruct (decide (24 ≤ length resto)%nat) as [Hl | Hl].
  - destruct (decide _) as [_ | Hne]; [| lia].
    f_equal. f_equal. f_equal; [f_equal |].
    + now rewrite take_take.
    + change 24%nat with (8 + 16)%nat.
      rewrite <- take_drop_commute, take_take. reflexivity.
    + change 24%nat with (16 + 8)%nat.
      rewrite <- take_drop_commute, take_take. reflexivity.
  - destruct (decide _) as [He | _]; [lia | reflexivity].
Qed.

Lemma procesar_fcm_casos (disco : archivos) (t : tabla) :
  procesar_fcm disco t =
  match leer_parametros disco "fcm.bin" with
  | Raise FileNotFoundError => (Ok NoEncontrado, t)
  | Raise e => (Raise e, t)
  | Ok (cab, (vp, vq, vs)) =>
      if negb (Z.land cab 3 =? value FCM) then (Ok TipoInvalido, t)
      else (Ok FcmProcesado,
            <[Z.shiftr cab 2 := mkRegistro vp vq vs (generar_llaves vp vq vs)]> t)
  end.
Proof.
  unfold procesar_fcm, try_except_FileNotFoundError, mbind, MS_bind, lift.
  destruct (leer_parametros disco "fcm.bin") as [[cab [[P Q] S]] | e].
  - destruct (negb _); reflexivity.
  - destruct e; reflexivity.
Qed.

Lemma procesar_kum_casos (disco : archivos) (t : tabla) :
  procesar_kum disco t =
  match leer_parametros disco "kum.bin" with
  | Raise FileNotFoundError => (Ok NoEncontrado, t)
  | Raise e => (Raise e, t)
  | Ok (cab, (vp, vq, vs)) =>
      if negb (Z.land cab 3 =? value KUM) then (Ok TipoInvalido, t)
      else match t !! Z.shiftr cab 2 with
           | None => (Ok NoRegistrado, t)
           | Some _ =>
               (Ok KumProcesado,
                <[Z.shiftr cab 2 := mkRegistro vp vq vs (generar_llaves vp vq vs)]> t)
           end
  end.
Proof.
  unfold procesar_kum, try_except_FileNotFoundError, mbind, MS_bind, lift.
  destruct (leer_parametros disco "kum.bin") as [[cab [[P Q] S]] | e].
  - destruct (negb _); [reflexivity |].
    unfold get_clientes. destruct (t !! Z.shiftr cab 2); reflexivity.
  - destruct e; reflexivity.
Qed.

Lemma procesar_lcm_casos (disco : archivos) (t : tabla) :
  procesar_lcm disco t =
  match disco !! "lcm.bin" with
  | None => (Ok NoEncontrado, t)
  | Some [] => (Raise StructError, t)
  | Some (cab :: _) =>
      if negb (Z.land cab 3 =? value LCM) then (Ok TipoInvalido, t)
      else match t !! Z.shiftr cab 2 with
           | Some _ => (Ok (LcmProcesado "Cliente desconectado"),
                        delete (Z.shiftr cab 2) t)
           | None => (Ok (LcmProcesado "Cliente no existia"), t)
           end
  end.
Proof.
  unfold procesar_lcm, try_except_FileNotFoundError, mbind, MS_bind, lift, open_rb.
  destruct (disco !! "lcm.bin") as [[| cab resto] |]; try reflexivity.
  change (take 1 (cab :: resto)) with [cab]. cbn [unpack_B].
  destruct (negb _); [reflexivity |].
  unfold get_clientes. destruct (t !! Z.shiftr cab 2); reflexivity.
Qed.

Lemma procesar_rm_casos (disco : archivos) (t : tabla) :
  procesar_rm disco t =
  match disco !! "rm.bin" with
  | None => (Ok NoEncontrado, t)
  | Some (cab :: idx :: cif) =>
      if decide (8 ≤ length cif)%nat then
        if negb (Z.land cab 3 =? value RM) then (Ok TipoInvalido, t)
        else match t !! Z.shiftr cab 2 with
             | None => (Ok NoRegistrado, t)
             | Some registro =>
                 match subscript (llaves registro) idx with
                 | Raise e => (Raise IndexError, t)
                 | Ok llave =>
                     match descifrar_mensaje (from_bytes_little (take 8 cif)) llave with
                     | Raise e => (Raise e, t)
                     | Ok mensaje => (Ok (MensajeDescifrado mensaje), t)
                     end
                 end
             end
      else (Raise StructError, t)
  | Some _ => (Raise StructError, t)
  end.
Proof.
  destruct (disco !! "rm.bin") as [[| cab [| idx cif]] |] eqn:Ef.
  - unfold procesar_rm, try_except_FileNotFoundError, mbind, MS_bind, lift, open_rb.
    now rewrite Ef.
  - unfold procesar_rm, try_except_FileNotFoundError, mbind, MS_bind, lift, open_rb.
    now rewrite Ef.
  - destruct (decide (8 ≤ length cif)%nat) as [Hl | Hl].
    + now apply procesar_rm_leido.
    + unfold procesar_rm, try_except_FileNotFoundError, mbind, MS_bind, lift, open_rb.
      rewrite Ef.
      change (take 1 (cab :: idx :: cif)) with [cab].
      change (take 1 (drop 1 (cab :: idx :: cif))) with [idx].
      change (drop 2 (cab :: idx :: cif)) with cif.
      cbn [unpack_B]. unfold unpack_Q. rewrite length_take.
      destruct (decide _) as [He | _]; [lia | reflexivity].
  - unfold procesar_rm, try_except_FileNotFoundError, mbind, MS_bind, lift, open_rb.
    now rewrite Ef.
Qed.

End Casos.

(** ** What the hub rejects *)

(** A file that is not there is reported by every handler as "No se
    encontró ..." and the handler returns normally; the table is unchanged. *)
Theorem archivo_ausente (T : TipoMensaje) (disco : archivos) (t : Servidor.tabla) :
  disco !! archivo_de T = None →
  procesar T disco t = (Ok Servidor.NoEncontrado, t).
Proof.
  intros Hf. destruct T; simpl in Hf |- *.
  - rewrite procesar_fcm_casos, leer_parametros_casos, Hf. reflexivity.
  - rewrite procesar_rm_casos, Hf. reflexivity.
  - rewrite procesar_kum_casos, leer_parametros_casos, Hf. reflexivity.
  - rewrite procesar_lcm_casos, Hf. reflexivity.
Qed.

Lemma archivo_ausente_witness :
  procesar KUM (<["fcm.bin" := [20]]> ∅) tabla_ejemplo =
  (Ok Servidor.NoEncontrado, tabla_ejemplo).
Proof. apply (archivo_ausente KUM). reflexivity. Defined.

(** A file shorter than the handler reads (25 bytes for FirstContact and
    KeyUpdate, 10 for Regular, 1 for LastContact) makes [struct.unpack] raise
    [struct.error], which no handler catches; the table is unchanged. *)
Theorem archivo_truncado
    (T : TipoMensaje) (disco : archivos) (t : Servidor.tabla) (f : list Z) :
  disco !! archivo_de T = Some f →
  (length f < 1 + cuerpo_de T)%nat →
  procesar T disco t = (Raise StructError, t).
Proof.
  intros Hf Hlen. destruct T; simpl in Hf, Hlen |- *.
  - rewrite procesar_fcm_casos, leer_parametros_casos, Hf.
    destruct f as [| cab resto]; [reflexivity |]. simpl in Hlen.
    destruct (decide _) as [H | _]; [lia | reflexivity].
  - rewrite procesar_rm_casos, Hf.
    destruct f as [| cab [| idx cif]]; try reflexivity. simpl in Hlen.
    destruct (decide _) as [H | _]; [lia | reflexivity].
  - rewrite procesar_kum_casos, leer_parametros_casos, Hf.
    destruct f as [| cab resto]; [reflexivity |]. simpl in Hlen.
    destruct (decide _) as [H | _]; [lia | reflexivity].
  - rewrite procesar_lcm_casos, Hf.
    destruct f as [| cab resto]; [reflexivity | simpl in Hlen; lia].
Qed.

Lemma archivo_truncado_witness :
  procesar RM (<["rm.bin" := [21; 0; 1; 0; 0; 208; 6; 64; 130]]> ∅) tabla_ejemplo =
  (Raise StructError, tabla_ejemplo).
Proof.
  apply (archivo_truncado RM _ _ [21; 0; 1; 0; 0; 208; 6; 64; 130]).
  - reflexivity.
  - simpl. lia.
Defined.

(** A file long enough whose two tag bits are not the handler's type is
    answered with "No es un mensaje ... válido" by every handler, before the
    identity is even looked up; the table is unchanged. *)
Theorem etiqueta_equivocada
    (T : TipoMensaje) (disco : archivos) (t : Servidor.tabla)
    (cab : Z) (resto : list Z) :
  disco !! archivo_de T = Some (cab :: resto) →
  (cuerpo_de T ≤ length resto)%nat →
  Z.land cab 3 ≠ value T →
  procesar T disco t = (Ok Servidor.TipoInvalido, t).
Proof.
  intros Hf Hlen Htag. apply Z.eqb_neq in Htag.
  destruct T; simpl in Hf, Hlen, Htag |- *.
  - rewrite procesar_fcm_casos, leer_parametros_casos, Hf.
    destruct (decide _) as [_ | H]; [| lia]. simpl. now rewrite Htag.
  - rewrite procesar_rm_casos, Hf.
    destruct resto as [| idx cif]; [simpl in Hlen; lia |]. simpl in Hlen.
    destruct (decide _) as [_ | H]; [| lia]. simpl. now rewrite Htag.
  - rewrite procesar_kum_casos, leer_parametros_casos, Hf.
    destruct (decide _) as [_ | H]; [| lia]. simpl. now rewrite Htag.
  - rewrite procesar_lcm_casos, Hf. simpl. now rewrite Htag.
Qed.

Lemma etiqueta_equivocada_witness :
  procesar LCM (<["lcm.bin" := [21]]> ∅) tabla_ejemplo =
  (Ok Servidor.TipoInvalido, tabla_ejemplo).
Proof.
  apply (etiqueta_equivocada LCM _ _ 21 []).
  - reflexivity.
  - simpl. lia.
  - discriminate.
Defined.

(** A KeyUpdate for an identity without a session is answered with "Cliente
    no registrado": no keys are derived and the table is unchanged. *)
Theorem procesar_kum_cliente_no_registrado
    (disco : archivos) (t : Servidor.tabla) (cab : Z) (resto : list Z) :
  disco !! "kum.bin" = Some (cab :: resto) → (24 ≤ length resto)%nat →
  Z.land cab 3 = value KUM →
  t !! Z.shiftr cab 2 = None →
  Servidor.procesar_kum disco t = (Ok Servidor.NoRegistrado, t).
Proof.
  intros Hf Hlen Htag Hid.
  rewrite procesar_kum_casos, leer_parametros_casos, Hf.
  destruct (decide _) as [_ | H]; [| lia]. now rewrite Htag, Hid.
Qed.

Lemma procesar_kum_cliente_no_registrado_witness :
  let disco : archivos :=
    <["kum.bin" := 26 :: bytes_little 8 23 ++ bytes_little 8 29 ++ bytes_little 8 99]> ∅ in
  Servidor.procesar_kum disco tabla_ejemplo = (Ok Servidor.NoRegistrado, tabla_ejemplo).
Proof.
  intros disco.
  apply (procesar_kum_cliente_no_registrado disco tabla_ejemplo 26
           (bytes_little 8 23 ++ bytes_little 8 29 ++ bytes_little 8 99)).
  - reflexivity.
  - simpl. lia.
  - reflexivity.
  - vm_compute. reflexivity.
Defined.

(** ** What the hub changes *)

(** A handler changes at most the entry of the identity in the header byte
    of the file it reads: every other entry of the table is as before. *)
Theorem otros_clientes_intactos
    (T : TipoMensaje) (disco : archivos) (t : Servidor.tabla) (j : Z) :
  snd (procesar T disco t) !! j = t !! j ∨
  ∃ cab resto, disco !! archivo_de T = Some (cab :: resto) ∧ j = Z.shiftr cab 2.
Proof.
  destruct T; simpl.
  - rewrite procesar_fcm_casos, leer_parametros_casos.
    destruct (disco !! "fcm.bin") as [[| cab resto] |]; try (now left).
    destruct (decide _); [| now left].
    destruct (negb _); [now left |]. simpl.
    destruct (decide (Z.shiftr cab 2 = j)) as [<- | Hne]; [right; eauto |].
    left. now rewrite lookup_insert_ne.
  - left. now rewrite procesar_rm_conserva.
  - rewrite procesar_kum_casos, leer_parametros_casos.
    destruct (disco !! "kum.bin") as [[| cab resto] |]; try (now left).
    destruct (decide _); [| now left].
    destruct (negb _); [now left |].
    destruct (t !! Z.shiftr cab 2); [| now left]. simpl.
    destruct (decide (Z.shiftr cab 2 = j)) as [<- | Hne]; [right; eauto |].
    left. now rewrite lookup_insert_ne.
  - rewrite procesar_lcm_casos.
    destruct (disco !! "lcm.bin") as [[| cab resto] |]; try (now left).
    destruct (negb _); [now left |].
    destruct (t !! Z.shiftr cab 2); [| now left]. simpl.
    destruct (decide (Z.shiftr cab 2 = j)) as [<- | Hne]; [right; eauto |].
    left. now rewrite lookup_delete_ne.
Qed.

(** Handling the same FirstContact, Regular or KeyUpdate file a second time
    gives the same answer and the same table as the first time (only
    LastContact answers differently the second time). *)
Theorem repetir_mensaje (T : TipoMensaje) (disco : archivos) (t : Servidor.tabla) :
  T ≠ LCM →
  procesar T disco (snd (procesar T disco t)) = procesar T disco t.
Proof.
  intros HT. destruct T; [| | | congruence]; simpl.
  - rewrite !procesar_fcm_casos.
    destruct (Servidor.leer_parametros disco "fcm.bin") as [[cab [[vp vq] vs]] | e].
    + destruct (negb _); [reflexivity |]. simpl. now rewrite insert_insert_eq.
    + destruct e; reflexivity.
  - now rewrite procesar_rm_conserva.
  - rewrite !procesar_kum_casos.
    destruct (Servidor.leer_parametros disco "kum.bin") as [[cab [[vp vq] vs]] | e].
    + destruct (negb _); [reflexivity |].
      destruct (t !! Z.shiftr cab 2) eqn:E; simpl.
      * now rewrite lookup_insert_eq, insert_insert_eq.
      * now rewrite E.
    + destruct e; reflexivity.
Qed.

Lemma repetir_mensaje_witness :
  let disco : archivos :=
    <["fcm.bin" := 20 :: bytes_little 8 17 ++ bytes_little 8 19 ++ bytes_little 8 77]> ∅ in
  procesar FCM disco (snd (procesar FCM disco ∅)) = procesar FCM disco ∅.
Proof. intros disco. apply (repetir_mensaje FCM). discriminate. Defined.

(** ** Invariants of the hub's table *)

Lemma leer_parametros_bytes (disco : archivos) (nombre : string)
    (cab vp vq vs : Z) :
  disco_de_bytes disco →
  Servidor.leer_parametros disco nombre = Ok (cab, (vp, vq, vs)) →
  0 ≤ Z.shiftr cab 2 ≤ 63 ∧ cabe_en_64 vp ∧ cabe_en_64 vq ∧ cabe_en_64 vs.
Proof.
  intros Hd Hl.
  destruct (leer_parametros_caben _ _ _ _ _ _ Hd Hl) as (Hp & Hq & Hs).
  repeat split; try apply Hp; try apply Hq; try apply Hs;
    rewrite leer_parametros_casos in Hl;
    destruct (disco !! nombre) as [[| c resto] |] eqn:Ef; try discriminate;
    destruct (decide _); try discriminate;
    injection Hl as -> _ _ _;
    pose proof (Hd _ _ Ef) as Hb; apply Forall_cons in Hb as [Hc _];
    rewrite Z.shiftr_div_pow2 by lia; change (2 ^ 2) with 4.
  - apply Z.div_pos; lia.
  - assert (cab / 4 < 64); [apply Z.div_lt_upper_bound; lia | lia].
Qed.

(** Whatever files of bytes the handlers were run on since the hub
    started, every entry of the table sits under a 6-bit identity and holds
    64-bit P, Q, S together with exactly the four keys derived from them. *)
Theorem tabla_alcanzable_registros (t : Servidor.tabla) (i : Z)
    (registro : Servidor.Registro) :
  tabla_alcanzable t → t !! i = Some registro →
  0 ≤ i ≤ 63 ∧
  cabe_en_64 (Servidor.p registro) ∧ cabe_en_64 (Servidor.q registro) ∧
  cabe_en_64 (Servidor.s registro) ∧
  Servidor.llaves registro =
    Servidor.generar_llaves (Servidor.p registro) (Servidor.q registro)
                            (Servidor.s registro) ∧
  length (Servidor.llaves registro) = 4%nat.
Proof.
  intros Ht. revert i registro.
  induction Ht as [| disco t Hd _ IH | disco t Hd _ IH | disco t Hd _ IH
                   | disco t Hd _ IH]; intros i registro.
  - rewrite lookup_empty. discriminate.
  - rewrite procesar_fcm_casos.
    destruct (Servidor.leer_parametros disco "fcm.bin") as [[cab [[vp vq] vs]] | e] eqn:E.
    + destruct (negb _); [apply IH |]. simpl.
      destruct (leer_parametros_bytes _ _ _ _ _ _ Hd E) as (Hi & Hp & Hq & Hs).
      destruct (decide (Z.shiftr cab 2 = i)) as [<- | Hne].
      * rewrite lookup_insert_eq. intros [= <-]. cbn [Servidor.p Servidor.q Servidor.s Servidor.llaves].
        repeat split; try apply Hi; try apply Hp; try apply Hq; try apply Hs.
      * rewrite lookup_insert_ne by exact Hne. apply IH.
    + destruct e; apply IH.
  - rewrite procesar_rm_conserva. apply IH.
  - rewrite procesar_kum_casos.
    destruct (Servidor.leer_parametros disco "kum.bin") as [[cab [[vp vq] vs]] | e] eqn:E.
    + destruct (negb _); [apply IH |].
      destruct (t !! Z.shiftr cab 2); [| apply IH]. simpl.
      destruct (leer_parametros_bytes _ _ _ _ _ _ Hd E) as (Hi & Hp & Hq & Hs).
      destruct (decide (Z.shiftr cab 2 = i)) as [<- | Hne].
      * rewrite lookup_insert_eq. intros [= <-]. cbn [Servidor.p Servidor.q Servidor.s Servidor.llaves].
        repeat split; try apply Hi; try apply Hp; try apply Hq; try apply Hs.
      * rewrite lookup_insert_ne by exact Hne. apply IH.
    + destruct e; apply IH.
  - destruct (procesar_lcm_tabla disco t) as [-> | (j & ->)]; [apply IH |].
    intros Hl. apply lookup_delete_Some in Hl as [_ Hl]. now apply IH.
Qed.

Lemma tabla_alcanzable_registros_witness :
  tabla_ejemplo !! 5 =
    Some (Servidor.mkRegistro 17 19 77 (Servidor.generar_llaves 17 19 77)) ∧
  length (Servidor.llaves
            (Servidor.mkRegistro 17 19 77 (Servidor.generar_llaves 17 19 77))) = 4%nat.
Proof.
  assert (tabla_ejemplo !! 5 =
          Some (Servidor.mkRegistro 17 19 77 (Servidor.generar_llaves 17 19 77))) as Hr
    by (vm_compute; reflexivity).
  split; [exact Hr |].
  apply (tabla_alcanzable_registros tabla_ejemplo 5 _ tabla_ejemplo_alcanzable Hr).
Defined.

(** Under a 64-bit key [to_bytes] cannot overflow: the only exception of
    [descifrar_mensaje] is [UnicodeDecodeError]. *)
Lemma descifrar_mensaje_llave_64 (cifrado llave : Z) (e : Excepcion) :
  cabe_en_64 llave →
  Servidor.descifrar_mensaje cifrado llave = Raise e → e = UnicodeDecodeError.
Proof.
  intros Hk. unfold Servidor.descifrar_mensaje. cbv zeta.
  pose proof (land_MASK64_cabe (Z.lor (Z.shiftl cifrado 4) (Z.shiftr cifrado 60))) as Hrot.
  pose proof (lxor_acotado 64 _ _ ltac:(lia) Hrot Hk) as Hx.
  set (num := Z.lxor _ llave) in *.
  unfold to_bytes_big.
  assert ((0 <=? num) && (num <? 256 ^ Z.of_nat 8) = true) as ->.
  { apply andb_true_iff. split; [apply Z.leb_le | apply Z.ltb_lt].
    - lia.
    - change (256 ^ Z.of_nat 8) with (2 ^ 64). lia. }
  unfold mbind, resultado_bind.
  destruct (decode_utf8 (rev (bytes_little 8 num))) as [texto | e'] eqn:E;
    [discriminate |].
  intros [= <-]. eapply decode_utf8_raise; [reflexivity | exact E].
Qed.

(** On such a table, a Regular message of a registered device with a key
    index from 0 to 3 is either decoded or ends in [UnicodeDecodeError] (the
    decrypted block is not valid UTF-8): the index is in range and
    [to_bytes] cannot overflow.  Either way the table is unchanged. *)
Theorem procesar_rm_indice_valido
    (disco : archivos) (t : Servidor.tabla) (cab idx : Z) (cif : list Z)
    (registro : Servidor.Registro) :
  tabla_alcanzable t →
  disco !! "rm.bin" = Some (cab :: idx :: cif) → (8 ≤ length cif)%nat →
  Z.land cab 3 = value RM →
  t !! Z.shiftr cab 2 = Some registro →
  0 ≤ idx < 4 →
  ∃ llave,
    Servidor.llaves registro !! Z.to_nat idx = Some llave ∧
    ((∃ mensaje,
        Servidor.descifrar_mensaje (from_bytes_little (take 8 cif)) llave = Ok mensaje ∧
        Servidor.procesar_rm disco t = (Ok (Servidor.MensajeDescifrado mensaje), t)) ∨
     Servidor.procesar_rm disco t = (Raise UnicodeDecodeError, t)).
Proof.
  intros Ht Hf Hlen Htag Hid Hidx.
  destruct (tabla_alcanzable_llaves t Ht _ _ Hid) as (H4 & Hcabe).
  destruct (subscript_en_rango (Servidor.llaves registro) idx) as (llave & Hsub & Hll);
    [lia |].
  exists llave. split; [exact Hll |].
  assert (cabe_en_64 llave) as Hk.
  { pose proof (list_elem_of_lookup_2 _ _ _ Hll) as Hin.
    revert Hin. generalize llave. apply Forall_forall, Hcabe. }
  rewrite (procesar_rm_leido disco t cab idx cif Hf Hlen), Htag, Hid, Hsub.
  simpl negb. cbv iota.
  destruct (Servidor.descifrar_mensaje _ llave) as [mensaje | e] eqn:Ed.
  - left. now exists mensaje.
  - right. now rewrite (descifrar_mensaje_llave_64 _ _ _ Hk Ed).
Qed.

Lemma procesar_rm_indice_valido_witness :
  ∃ llave,
    Servidor.generar_llaves 17 19 77 !! 3%nat = Some llave ∧
    ((∃ mensaje,
        Servidor.descifrar_mensaje
          (from_bytes_little (take 8 [1; 0; 0; 208; 6; 64; 130; 54])) llave = Ok mensaje ∧
        Servidor.procesar_rm (<["rm.bin" := [21; 3; 1; 0; 0; 208; 6; 64; 130; 54]]> ∅)
                             tabla_ejemplo
          = (Ok (Servidor.MensajeDescifrado mensaje), tabla_ejemplo)) ∨
     Servidor.procesar_rm (<["rm.bin" := [21; 3; 1; 0; 0; 208; 6; 64; 130; 54]]> ∅)
                          tabla_ejemplo
       = (Raise UnicodeDecodeError, tabla_ejemplo)).
Proof.
  apply (procesar_rm_indice_valido
           (<["rm.bin" := [21; 3; 1; 0; 0; 208; 6; 64; 130; 54]]> ∅) tabla_ejemplo
           21 3 [1; 0; 0; 208; 6; 64; 130; 54]
           (Servidor.mkRegistro 17 19 77 (Servidor.generar_llaves 17 19 77))).
  - exact tabla_ejemplo_alcanzable.
  - reflexivity.
  - simpl. lia.
  - reflexivity.
  - vm_compute. reflexivity.
  - lia.
Defined.

(** ** The device's messages *)

Section Mensajes.

Import Cliente.

Lemma strip0_bloque (mensaje : list Z) :
  strip0 (take 8 (ljust 8 mensaje)) = strip0 (take 8 mensaje).
Proof.
  unfold ljust. destruct (Nat.le_gt_cases 8 (length mensaje)) as [Hlargo | Hcorto].
  - replace (8 - length mensaje)%nat with 0%nat by lia.
    simpl replicate. now rewrite app_nil_r.
  - rewrite !take_ge by (rewrite ?length_app, ?length_replicate; lia).
    apply strip0_app_ceros.
Qed.

(** What a successful [crear_rm] does on a device that satisfies the
    invariant and has keys. *)
Lemma crear_rm_efecto (mensaje : list Z) (w : Mundo) (codificado : list Z) :
  cliente_ok (self w) → llaves (self w) ≠ [] →
  encode_utf8 mensaje = Ok codificado →
  ∃ llave cifrado,
    llaves (self w) !! Z.to_nat (llave_actual (self w)) = Some llave ∧
    cabe_en_64 llave ∧
    cifrar_mensaje mensaje llave = Ok cifrado ∧
    cabe_en_64 cifrado ∧
    crear_rm mensaje w =
      Some (Ok Creado,
            mkMundo (mkCliente (id (self w)) (llaves (self w))
                               ((llave_actual (self w) + 1) mod 4)
                               (p (self w)) (q (self w)) (s (self w)))
                    (<["rm.bin" := cabecera (self w) RM :: llave_actual (self w)
                                     :: bytes_little 8 cifrado]> (disco w))
                    (azar w)).
Proof.
  intros (Hid & Hidx & Hlen & Hcabe) Hne Henc.
  destruct Hlen as [Hvacia | H4]; [contradiction |].
  destruct (subscript_en_rango (llaves (self w)) (llave_actual (self w)))
    as (llave & Hsub & Hll); [lia |].
  assert (cabe_en_64 llave) as Hk.
  { pose proof (list_elem_of_lookup_2 _ _ _ Hll) as Hin.
    revert Hin. generalize llave. apply Forall_forall, Hcabe. }
  pose proof (cifrar_mensaje_casos mensaje llave) as Hcif. rewrite Henc in Hcif.
  destruct Hcif as (cifrado & Hcif & Hc64).
  exists llave, cifrado. repeat split; try assumption; try apply Hk; try apply Hc64.
  pose proof (crear_rm_casos mensaje w) as Hcasos. cbv zeta in Hcasos.
  rewrite Hcasos, Hsub, Hcif, (pack_B_cabecera _ RM Hid), (pack_Q_cabe _ Hc64).
  assert (pack_B (llave_actual (self w)) = Ok [llave_actual (self w)]) as ->.
  { unfold pack_B.
    destruct (Z.leb_spec 0 (llave_actual (self w))); [| lia].
    destruct (Z.leb_spec (llave_actual (self w)) 255); [reflexivity | lia]. }
  destruct (llaves (self w)); [contradiction | reflexivity].
Qed.



End Mensajes.

(** ** From the device's files to the hub's table *)

(** What a finished [crear_fcm] or [crear_kum] has done on a device with a
    6-bit identity: it returned normally, and the 25 bytes it wrote are read
    back by the hub as the header and the device's own P, Q, S. *)
Lemma crear_parametros_efecto (nombre : string) (tipo : TipoMensaje)
    (w w' : Cliente.Mundo) (r : resultado Cliente.Aviso) :
  0 ≤ Cliente.id (Cliente.self w) ≤ 63 →
  Cliente.crear_parametros nombre tipo w = Some (r, w') →
  let c' := Cliente.self w' in
  r = Ok Cliente.Creado ∧
  Cliente.id c' = Cliente.id (Cliente.self w) ∧
  Cliente.llave_actual c' = Cliente.llave_actual (Cliente.self w) ∧
  0 ≤ Cliente.p c' < 2 ^ 16 ∧ 0 ≤ Cliente.q c' < 2 ^ 16 ∧ cabe_en_64 (Cliente.s c') ∧
  Cliente.pasa_prueba (Cliente.p c') = true ∧
  Cliente.pasa_prueba (Cliente.q c') = true ∧
  Cliente.llaves c' =
    Servidor.generar_llaves (Cliente.p c') (Cliente.q c') (Cliente.s c') ∧
  Cliente.disco w' =
    <[nombre := Cliente.cabecera c' tipo
                :: bytes_little 8 (Cliente.p c') ++ bytes_little 8 (Cliente.q c')
                   ++ bytes_little 8 (Cliente.s c')]> (Cliente.disco w) ∧
  Servidor.leer_parametros (Cliente.disco w') nombre =
    Ok (Cliente.cabecera c' tipo, (Cliente.p c', Cliente.q c', Cliente.s c')).
Proof.
  intros Hid. rewrite crear_parametros_casos.
  destruct (Cliente.bucle_primo 16 (Cliente.azar w)) as [[P az1] |] eqn:EP;
    [| discriminate].
  destruct (Cliente.bucle_primo 16 az1) as [[Q az2] |] eqn:EQ; [| discriminate].
  destruct az2 as [| x az3]; [discriminate |]. cbv zeta.
  destruct (bucle_primo_rango 16 _ _ _ ltac:(lia) EP) as (HP & HPp).
  destruct (bucle_primo_rango 16 _ _ _ ltac:(lia) EQ) as (HQ & HQp).
  pose proof (Z.mod_pos_bound x (2 ^ 64) ltac:(lia)) as HS.
  match goal with
  | |- context [Cliente.generar_llaves ?c0] =>
      destruct (generar_llaves_cliente c0) as (Ell & Eid & Eidx & Ep & Eq & Es);
      set (c := Cliente.generar_llaves c0) in *
  end.
  cbn [Cliente.id Cliente.llaves Cliente.llave_actual Cliente.p Cliente.q Cliente.s]
    in Ell, Eid, Eidx, Ep, Eq, Es.
  rewrite (pack_B_cabecera c tipo) by (rewrite Eid; exact Hid).
  assert (cabe_en_64 P ∧ cabe_en_64 Q ∧ cabe_en_64 (x mod 2 ^ 64)) as (HcP & HcQ & HcS).
  { unfold cabe_en_64. lia. }
  rewrite Ep, Eq, Es.
  rewrite (proj1 (unpack_pack_QQQ _ _ _ HcP HcQ HcS)).
  intros Heq. apply (inj Some), pair_equal_spec in Heq as [<- <-].
  cbn [Cliente.self Cliente.disco].
  rewrite Ep, Eq, Es, Eid, Eidx, Ell.
  split; [reflexivity |]. split; [reflexivity |]. split; [reflexivity |].
  split; [lia |]. split; [lia |]. split; [exact HcS |].
  split; [exact HPp |]. split; [exact HQp |]. split; [reflexivity |].
  split; [reflexivity |].
  rewrite leer_parametros_casos, lookup_insert_eq.
  change ([Cliente.cabecera c tipo] ++ ?l) with (Cliente.cabecera c tipo :: l).
  cbv iota.
  pose proof (proj2 (unpack_pack_QQQ _ _ _ HcP HcQ HcS)) as Hun.
  unfold unpack_QQQ in Hun.
  destruct (decide (length _ = 24%nat)) as [H24 | ]; [| discriminate].
  destruct (decide (24 ≤ _)%nat) as [_ | Hn]; [| lia].
  congruence.
Qed.

(** First contact, end to end: on a device with a 6-bit identity a finished
    [crear_fcm] has returned normally, and [procesar_fcm] run on the
    device's files registers that identity, whatever the table held, with the
    device's P, Q, S and a key table equal to the device's own. *)
Theorem primer_contacto_extremo_a_extremo
    (w w' : Cliente.Mundo) (r : resultado Cliente.Aviso) (t : Servidor.tabla) :
  0 ≤ Cliente.id (Cliente.self w) ≤ 63 →
  Cliente.crear_fcm w = Some (r, w') →
  r = Ok Cliente.Creado ∧
  (∃ datos, Cliente.disco w' !! "fcm.bin" = Some datos ∧ length datos = 25%nat) ∧
  Servidor.procesar_fcm (Cliente.disco w') t =
    (Ok Servidor.FcmProcesado,
     <[Cliente.id (Cliente.self w) :=
         Servidor.mkRegistro (Cliente.p (Cliente.self w')) (Cliente.q (Cliente.self w'))
                             (Cliente.s (Cliente.self w'))
                             (Cliente.llaves (Cliente.self w'))]> t).
Proof.
  intros Hid Hrun.
  destruct (crear_parametros_efecto "fcm.bin" FCM w w' r Hid Hrun)
    as (Hr & Eid & _ & _ & _ & _ & _ & _ & Ell & Hdisco & Hleer).
  split; [exact Hr |]. split.
  - rewrite Hdisco, lookup_insert_eq. eexists. split; [reflexivity |].
    cbn [length]. rewrite !length_app, !length_bytes_little. reflexivity.
  - rewrite procesar_fcm_casos, Hleer.
    rewrite <- Eid in Hid.
    destruct (cabecera_campos (Cliente.self w') FCM Hid) as (-> & ->).
    simpl negb. cbv iota. now rewrite Ell, Eid.
Qed.

Lemma primer_contacto_extremo_a_extremo_witness :
  let w := tras Cliente.init mundo_ejemplo in
  Servidor.llaves <$> snd (Servidor.procesar_fcm
                             (Cliente.disco (tras Cliente.crear_fcm w)) ∅) !! 5 =
  Some (Cliente.llaves (Cliente.self (tras Cliente.crear_fcm w))).
Proof.
  intros w.
  destruct (primer_contacto_extremo_a_extremo w (tras Cliente.crear_fcm w)
              (Ok Cliente.Creado) ∅) as (_ & _ & H).
  - vm_compute. split; discriminate.
  - vm_compute. reflexivity.
  - rewrite H. cbn [snd].
    change (Cliente.id (Cliente.self w)) with 5.
    now rewrite lookup_insert_eq.
Defined.

(** Key update, end to end: a finished [crear_kum] has returned normally,
    and [procesar_kum] on the device's files replaces the whole entry of a
    registered device by the new P, Q, S and the device's new key table (for
    an unregistered one it answers "Cliente no registrado" and changes
    nothing). *)
Theorem actualizacion_extremo_a_extremo
    (w w' : Cliente.Mundo) (r : resultado Cliente.Aviso) (t : Servidor.tabla) :
  0 ≤ Cliente.id (Cliente.self w) ≤ 63 →
  Cliente.crear_kum w = Some (r, w') →
  r = Ok Cliente.Creado ∧
  Servidor.procesar_kum (Cliente.disco w') t =
    match t !! Cliente.id (Cliente.self w) with
    | None => (Ok Servidor.NoRegistrado, t)
    | Some _ =>
        (Ok Servidor.KumProcesado,
         <[Cliente.id (Cliente.self w) :=
             Servidor.mkRegistro (Cliente.p (Cliente.self w'))
                                 (Cliente.q (Cliente.self w'))
                                 (Cliente.s (Cliente.self w'))
                                 (Cliente.llaves (Cliente.self w'))]> t)
    end.
Proof.
  intros Hid Hrun.
  destruct (crear_parametros_efecto "kum.bin" KUM w w' r Hid Hrun)
    as (Hr & Eid & _ & _ & _ & _ & _ & _ & Ell & Hdisco & Hleer).
  split; [exact Hr |].
  rewrite procesar_kum_casos, Hleer.
  rewrite <- Eid in Hid.
  destruct (cabecera_campos (Cliente.self w') KUM Hid) as (-> & ->).
  simpl negb. cbv iota. rewrite Eid.
  destruct (t !! Cliente.id (Cliente.self w)); [| reflexivity].
  now rewrite Ell.
Qed.

Lemma actualizacion_extremo_a_extremo_witness :
  Servidor.llaves <$> snd (Servidor.procesar_kum
                             (Cliente.disco (tras Cliente.crear_kum mundo_tras_rm))
                             tabla_ejemplo) !! 5 =
  Some (Cliente.llaves (Cliente.self (tras Cliente.crear_kum mundo_tras_rm))).
Proof.
  destruct (actualizacion_extremo_a_extremo mundo_tras_rm
              (tras Cliente.crear_kum mundo_tras_rm) (Ok Cliente.Creado) tabla_ejemplo)
    as (_ & H).
  - vm_compute. split; discriminate.
  - vm_compute. reflexivity.
  - rewrite H. change (Cliente.id (Cliente.self mundo_tras_rm)) with 5.
    change (tabla_ejemplo !! 5) with
      (Some (Servidor.mkRegistro 17 19 77 (Servidor.generar_llaves 17 19 77))).
    cbv iota. cbn [snd]. now rewrite lookup_insert_eq.
Defined.

(** Regular message, end to end: when the hub's entry for the device holds
    the device's key table, an ASCII text sent with [crear_rm] is decoded by
    [procesar_rm] on the device's files, under the key the device's index
    pointed to, to the first eight characters of the text without NULs at
    the ends; in particular to the text itself if it has 1 to 8 characters
    and no NUL. *)
Theorem mensaje_regular_extremo_a_extremo
    (mensaje : list Z) (w : Cliente.Mundo) (t : Servidor.tabla)
    (registro : Servidor.Registro) :
  cliente_ok (Cliente.self w) → Cliente.llaves (Cliente.self w) ≠ [] →
  Forall (λ c, 0 ≤ c < 0x80) mensaje →
  t !! Cliente.id (Cliente.self w) = Some registro →
  Servidor.llaves registro = Cliente.llaves (Cliente.self w) →
  ∃ w',
    Cliente.crear_rm mensaje w = Some (Ok Cliente.Creado, w') ∧
    Servidor.procesar_rm (Cliente.disco w') t =
      (Ok (Servidor.MensajeDescifrado (strip0 (take 8 mensaje))), t) ∧
    ((length mensaje ≤ 8)%nat → Forall (λ c, c ≠ 0) mensaje →
     strip0 (take 8 mensaje) = mensaje).
Proof.
  intros Hok Hne Ha Hreg Hll.
  destruct (crear_rm_efecto mensaje w mensaje Hok Hne (encode_utf8_ascii _ Ha))
    as (llave & cifrado & Hk & Hk64 & Hcif & Hc64 & Hrm).
  destruct (cifrar_descifrar_bloque mensaje llave Ha Hk64) as (Hcif' & _ & _ & Hdes).
  cbv zeta in Hcif', Hdes.
  pose proof (f_equal (λ x, match x with Ok v => v | Raise _ => 0 end)
                (eq_trans (eq_sym Hcif) Hcif')) as Ecif.
  cbv beta iota in Ecif. rewrite <- Ecif in Hdes. clear Hcif' Ecif.
  eexists. split; [exact Hrm |]. cbn [Cliente.disco]. split.
  - destruct Hok as (Hid & Hidx & Hlen & _).
    rewrite (procesar_rm_leido _ t (Cliente.cabecera (Cliente.self w) RM)
               (Cliente.llave_actual (Cliente.self w)) (bytes_little 8 cifrado));
      [| apply lookup_insert_eq | rewrite length_bytes_little; lia].
    destruct (cabecera_campos (Cliente.self w) RM Hid) as (-> & ->).
    rewrite Hreg, Hll. simpl negb. cbv iota.
    destruct Hlen as [Hv | H4]; [contradiction |].
    destruct (subscript_en_rango (Cliente.llaves (Cliente.self w))
                (Cliente.llave_actual (Cliente.self w)))
      as (llave' & -> & Hk'); [lia |].
    assert (llave' = llave) as -> by congruence.
    rewrite take_ge by (rewrite length_bytes_little; lia).
    rewrite from_bytes_little_bytes_little.
    change (256 ^ Z.of_nat 8) with (2 ^ 64).
    rewrite Z.mod_small by exact Hc64.
    now rewrite Hdes, strip0_bloque.
  - intros Hlen Hnz. rewrite take_ge by lia.
    rewrite <- (app_nil_r mensaje) at 1.
    apply (strip0_ljust mensaje 0 Hnz).
Qed.

Lemma mensaje_regular_extremo_a_extremo_witness :
  ∃ w',
    Cliente.crear_rm [111; 107] mundo_tras_rm = Some (Ok Cliente.Creado, w') ∧
    Servidor.procesar_rm (Cliente.disco w') tabla_ejemplo =
      (Ok (Servidor.MensajeDescifrado [111; 107]), tabla_ejemplo).
Proof.
  destruct (mensaje_regular_extremo_a_extremo [111; 107] mundo_tras_rm tabla_ejemplo
              (Servidor.mkRegistro 17 19 77 (Servidor.generar_llaves 17 19 77)))
    as (w' & Hrm & Hproc & _).
  - apply mundo_alcanzable_ok, mundo_tras_rm_alcanzable.
  - vm_compute. discriminate.
  - repeat constructor; lia.
  - vm_compute. reflexivity.
  - vm_compute. reflexivity.
  - exists w'. split; [exact Hrm | exact Hproc].
Defined.



(** ** The key index and the identity over time *)

(** Four Regular messages in a row use the four key indices once each and
    bring the key index back to where it was; the key table is the same
    throughout. *)
Theorem indice_de_llave_ciclo
    (m1 m2 m3 m4 : list Z) (w : Cliente.Mundo) :
  cliente_ok (Cliente.self w) → Cliente.llaves (Cliente.self w) ≠ [] →
  Forall (λ m, ∃ codificado, encode_utf8 m = Ok codificado) [m1; m2; m3; m4] →
  ∃ w1 w2 w3 w4,
    Cliente.crear_rm m1 w = Some (Ok Cliente.Creado, w1) ∧
    Cliente.crear_rm m2 w1 = Some (Ok Cliente.Creado, w2) ∧
    Cliente.crear_rm m3 w2 = Some (Ok Cliente.Creado, w3) ∧
    Cliente.crear_rm m4 w3 = Some (Ok Cliente.Creado, w4) ∧
    Cliente.llave_actual (Cliente.self w4) = Cliente.llave_actual (Cliente.self w) ∧
    Cliente.llaves (Cliente.self w4) = Cliente.llaves (Cliente.self w) ∧
    NoDup [Cliente.llave_actual (Cliente.self w);
           Cliente.llave_actual (Cliente.self w1);
           Cliente.llave_actual (Cliente.self w2);
           Cliente.llave_actual (Cliente.self w3)].
Proof.
  intros Hok Hne Henc.
  assert (∀ m u, cliente_ok (Cliente.self u) → Cliente.llaves (Cliente.self u) ≠ [] →
            (∃ codificado, encode_utf8 m = Ok codificado) →
            ∃ u', Cliente.crear_rm m u = Some (Ok Cliente.Creado, u') ∧
                  cliente_ok (Cliente.self u') ∧
                  Cliente.llaves (Cliente.self u') = Cliente.llaves (Cliente.self u) ∧
                  Cliente.llave_actual (Cliente.self u') =
                    (Cliente.llave_actual (Cliente.self u) + 1) mod 4) as Hpaso.
  { intros m u Hu Hnu (codificado & Hm).
    destruct (crear_rm_efecto m u codificado Hu Hnu Hm)
      as (llave & cifrado & _ & _ & _ & _ & Hrm).
    eexists. split; [exact Hrm |].
    cbn [Cliente.self Cliente.llaves Cliente.llave_actual].
    destruct Hu as (Hid & Hidx & Hlen & Hcabe).
    pose proof (Z.mod_pos_bound (Cliente.llave_actual (Cliente.self u) + 1) 4
                  ltac:(lia)).
    repeat split; cbn [Cliente.id Cliente.llaves Cliente.llave_actual];
      assumption || lia. }
  apply Forall_cons in Henc as [H1 Henc]. apply Forall_cons in Henc as [H2 Henc].
  apply Forall_cons in Henc as [H3 Henc]. apply Forall_cons in Henc as [H4 _].
  destruct (Hpaso m1 w Hok Hne H1) as (w1 & R1 & Hok1 & L1 & I1).
  destruct (Hpaso m2 w1 Hok1 ltac:(congruence) H2) as (w2 & R2 & Hok2 & L2 & I2).
  destruct (Hpaso m3 w2 Hok2 ltac:(congruence) H3) as (w3 & R3 & Hok3 & L3 & I3).
  destruct (Hpaso m4 w3 Hok3 ltac:(congruence) H4) as (w4 & R4 & Hok4 & L4 & I4).
  exists w1, w2, w3, w4.
  split; [exact R1 |]. split; [exact R2 |]. split; [exact R3 |]. split; [exact R4 |].
  destruct Hok as (_ & Hidx & _).
  rewrite I4, I3, I2, I1, L4, L3, L2, L1.
  assert (Cliente.llave_actual (Cliente.self w) = 0 ∨
          Cliente.llave_actual (Cliente.self w) = 1 ∨
          Cliente.llave_actual (Cliente.self w) = 2 ∨
          Cliente.llave_actual (Cliente.self w) = 3) as Hcasos by lia.
  destruct Hcasos as [-> | [-> | [-> | ->]]];
    (split; [reflexivity |]; split; [reflexivity |];
     repeat (apply NoDup_cons; split;
             [intros Hin; repeat (apply elem_of_cons in Hin as [Hin | Hin];
                                  [discriminate Hin |]);
              apply elem_of_nil in Hin; exact Hin |]);
     apply NoDup_nil; exact I).
Qed.

Lemma indice_de_llave_ciclo_witness :
  ∃ w1 w2 w3 w4,
    Cliente.crear_rm [97] mundo_tras_rm = Some (Ok Cliente.Creado, w1) ∧
    Cliente.crear_rm [98] w1 = Some (Ok Cliente.Creado, w2) ∧
    Cliente.crear_rm [99] w2 = Some (Ok Cliente.Creado, w3) ∧
    Cliente.crear_rm [100] w3 = Some (Ok Cliente.Creado, w4) ∧
    Cliente.llave_actual (Cliente.self w4) = Cliente.llave_actual (Cliente.self mundo_tras_rm).
Proof.
  destruct (indice_de_llave_ciclo [97] [98] [99] [100] mundo_tras_rm)
    as (w1 & w2 & w3 & w4 & R1 & R2 & R3 & R4 & Hidx & _).
  - apply mundo_alcanzable_ok, mundo_tras_rm_alcanzable.
  - vm_compute. discriminate.
  - repeat constructor; eexists; reflexivity.
  - exists w1, w2, w3, w4. repeat split; assumption.
Defined.



(** ** The menu loops *)

Lemma bucle_menu_servidor_app
    (antes despues : list (list Z * archivos)) (t : Servidor.tabla) :
  Servidor.bucle_menu (antes ++ despues) t =
  match Servidor.bucle_menu antes t with
  | (Ok Servidor.Esperando, t') => Servidor.bucle_menu despues t'
  | final => final
  end.
Proof.
  revert t. induction antes as [| [opcion disco] antes IH]; intros t; [reflexivity |].
  cbn [app Servidor.bucle_menu].
  assert (∀ (m : Servidor.M Servidor.Aviso),
            (m ;; Servidor.bucle_menu (antes ++ despues)) t =
            match (m ;; Servidor.bucle_menu antes) t with
            | (Ok Servidor.Esperando, t') => Servidor.bucle_menu despues t'
            | final => final
            end) as Hm.
  { intros m. unfold mbind, Servidor.MS_bind.
    destruct (m t) as [[a | e] t1]; [apply IH | reflexivity]. }
  repeat (destruct (decide _); [apply Hm |]).
  destruct (decide _); [reflexivity | apply IH].
Qed.

(** Once the hub's menu loop has ended, by option 5 or by an exception
    leaving a handler, nothing typed afterwards is processed: answer and
    table are those at the point where it ended. *)
Theorem menu_servidor_terminado (antes despues : list (list Z * archivos)) :
  fst (Servidor.main antes) ≠ Ok Servidor.Esperando →
  Servidor.main (antes ++ despues) = Servidor.main antes.
Proof.
  unfold Servidor.main. intros Hfin. rewrite bucle_menu_servidor_app.
  destruct (Servidor.bucle_menu antes ∅) as [[[|] | e] t']; try reflexivity.
  now destruct Hfin.
Qed.

Lemma menu_servidor_terminado_witness :
  Servidor.main ([([53], ∅)] ++ [([49], Cliente.disco mundo_tras_rm)]) =
  Servidor.main [([53], ∅)].
Proof. apply menu_servidor_terminado. vm_compute. discriminate. Defined.

(** One Regular message with a key index beyond the stored key table, for a
    registered device, ends the hub for good: [IndexError] leaves
    [procesar_rm] and [main], whatever was handled before and whatever is
    typed afterwards. *)
Theorem menu_servidor_indice_fuera_de_rango
    (antes despues : list (list Z * archivos)) (disco : archivos)
    (t : Servidor.tabla) (cab idx : Z) (cif : list Z) (registro : Servidor.Registro) :
  Servidor.main antes = (Ok Servidor.Esperando, t) →
  disco !! "rm.bin" = Some (cab :: idx :: cif) → (8 ≤ length cif)%nat →
  Z.land cab 3 = value RM →
  t !! Z.shiftr cab 2 = Some registro →
  Z.of_nat (length (Servidor.llaves registro)) ≤ idx →
  Servidor.main (antes ++ ([50], disco) :: despues) = (Raise IndexError, t).
Proof.
  unfold Servidor.main. intros Hantes Hf Hlen Htag Hid Hidx.
  rewrite bucle_menu_servidor_app, Hantes.
  cbn [Servidor.bucle_menu].
  destruct (decide ([50] = [49])) as [Habs | _]; [discriminate Habs |].
  destruct (decide ([50] = [50])) as [_ | Habs]; [| now destruct Habs].
  unfold mbind, Servidor.MS_bind.
  rewrite (procesar_rm_leido disco t cab idx cif Hf Hlen), Htag, Hid.
  simpl negb. cbv iota. unfold subscript.
  destruct (Z.ltb_spec idx 0) as [Hneg | _]; [lia |].
  destruct (Z.ltb_spec idx (Z.of_nat (length (Servidor.llaves registro)))) as [Hlt | _];
    [lia |].
  now rewrite andb_false_r.
Qed.

Lemma menu_servidor_indice_fuera_de_rango_witness :
  let fcm : archivos :=
    <["fcm.bin" := 20 :: bytes_little 8 17 ++ bytes_little 8 19 ++ bytes_little 8 77]> ∅ in
  let rm : archivos := <["rm.bin" := [21; 4; 1; 0; 0; 208; 6; 64; 130; 54]]> ∅ in
  Servidor.main ([([49], fcm)] ++ ([50], rm) :: [([49], fcm); ([53], ∅)]) =
  (Raise IndexError, tabla_ejemplo).
Proof.
  intros fcm rm.
  apply (menu_servidor_indice_fuera_de_rango [([49], fcm)] _ rm tabla_ejemplo
           21 4 [1; 0; 0; 208; 6; 64; 130; 54]
           (Servidor.mkRegistro 17 19 77 (Servidor.generar_llaves 17 19 77))).
  - vm_compute. reflexivity.
  - reflexivity.
  - simpl. lia.
  - reflexivity.
  - vm_compute. reflexivity.
  - simpl. lia.
Defined.

(** Whatever is typed at the hub's menu, on whatever files of bytes, the
    table [main] ends with is one the handlers can reach from the empty
    table, so it has the properties of such tables. *)
Theorem main_servidor_alcanzable (entradas : list (list Z * archivos)) :
  Forall (λ e, disco_de_bytes (snd e)) entradas →
  tabla_alcanzable (snd (Servidor.main entradas)) ∧
  ∀ i registro, snd (Servidor.main entradas) !! i = Some registro →
    length (Servidor.llaves registro) = 4%nat ∧
    Forall cabe_en_64 (Servidor.llaves registro).
Proof.
  intros Hd.
  assert (∀ t, tabla_alcanzable t →
               tabla_alcanzable (snd (Servidor.bucle_menu entradas t))) as Hgen.
  { induction Hd as [| [opcion disco] entradas Hb _ IH]; intros t Ht; [exact Ht |].
    cbn [Servidor.bucle_menu]. cbn [snd] in Hb.
    assert (∀ (m : Servidor.M Servidor.Aviso),
              tabla_alcanzable (snd (m t)) →
              tabla_alcanzable (snd ((m ;; Servidor.bucle_menu entradas) t))) as Hm.
    { intros m Hmt. unfold mbind, Servidor.MS_bind.
      destruct (m t) as [[a | e] t1]; [apply IH |]; exact Hmt. }
    destruct (decide _); [apply Hm; now apply alcanzable_fcm |].
    destruct (decide _); [apply Hm; now apply alcanzable_rm |].
    destruct (decide _); [apply Hm; now apply alcanzable_kum |].
    destruct (decide _); [apply Hm; now apply alcanzable_lcm |].
    destruct (decide _); [exact Ht | now apply IH]. }
  pose proof (Hgen ∅ alcanzable_init) as Hmain.
  split; [exact Hmain |].
  intros i registro Hi. exact (tabla_alcanzable_llaves _ Hmain i registro Hi).
Qed.

Lemma main_servidor_alcanzable_witness :
  tabla_alcanzable
    (snd (Servidor.main [([49], <["fcm.bin" := [20; 17]]> ∅); ([53], ∅)])).
Proof.
  apply main_servidor_alcanzable.
  repeat constructor; cbn [snd].
  - apply disco_de_bytes_singleton. repeat constructor; lia.
  - intros nombre datos H. rewrite lookup_empty in H. discriminate H.
Defined.

Section MenuCliente.

Import Cliente.

Lemma metodo_y_luego (m : M Aviso) (k : M Fin) (w w' : Mundo) (r : resultado Fin) :
  metodo m → mundo_alcanzable w →
  (m ;; k) w = Some (r, w') →
  (∀ w1, mundo_alcanzable w1 → k w1 = Some (r, w') → mundo_alcanzable w') →
  mundo_alcanzable w'.
Proof.
  intros Hm Hw Hrun Hk. unfold mbind, M_bind in Hrun.
  destruct (m w) as [[[a | e] w1] |] eqn:E; [| | discriminate].
  - apply (Hk w1); [| exact Hrun]. exact (alcanzable_metodo m w _ w1 Hw Hm E).
  - apply (inj Some), pair_equal_spec in Hrun as [_ <-].
    exact (alcanzable_metodo m w _ w1 Hw Hm E).
Qed.

Lemma bind_get_self {B} (f : ClienteIoT → M B) (w : Mundo) :
  (get_self ≫= f) w = f (self w) w.
Proof. reflexivity. Qed.

Lemma bucle_menu_alcanzable (n : nat) :
  ∀ (entradas : list (list Z)) (w w' : Mundo) (r : resultado Fin),
    (length entradas ≤ n)%nat → mundo_alcanzable w →
    bucle_menu entradas w = Some (r, w') → mundo_alcanzable w'.
Proof.
  induction n as [| n IH]; intros entradas w w' r Hlen Hw Hrun.
  - destruct entradas; [| simpl in Hlen; lia].
    apply (inj Some), pair_equal_spec in Hrun as [_ <-]. exact Hw.
  - destruct entradas as [| opcion resto].
    { apply (inj Some), pair_equal_spec in Hrun as [_ <-]. exact Hw. }
    simpl in Hlen. cbn [bucle_menu] in Hrun.
    assert (∀ w1, mundo_alcanzable w1 → bucle_menu resto w1 = Some (r, w') →
                  mundo_alcanzable w') as Hresto.
    { intros w1 Hw1. apply IH; [lia | exact Hw1]. }
    destruct (decide _).
    { apply (metodo_y_luego crear_fcm (bucle_menu resto) w w' r);
        [constructor | assumption..]. }
    destruct (decide _).
    { rewrite bind_get_self in Hrun.
      destruct (llaves (self w)); [now apply (Hresto w) |].
      destruct resto as [| msg resto'].
      - apply (inj Some), pair_equal_spec in Hrun as [_ <-]. exact Hw.
      - apply (metodo_y_luego (crear_rm msg) (bucle_menu resto') w w' r);
          [constructor | assumption.. |].
        intros w1 Hw1. apply IH; [simpl in Hlen; lia | exact Hw1]. }
    destruct (decide _).
    { rewrite bind_get_self in Hrun.
      destruct (llaves (self w)); [now apply (Hresto w) |].
      apply (metodo_y_luego crear_kum (bucle_menu resto) w w' r);
        [constructor | assumption..]. }
    destruct (decide _).
    { rewrite bind_get_self in Hrun.
      destruct (llaves (self w)); [now apply (Hresto w) |].
      apply (metodo_y_luego crear_lcm (bucle_menu resto) w w' r);
        [constructor | assumption..]. }
    destruct (decide _).
    { apply (inj Some), pair_equal_spec in Hrun as [_ <-]. exact Hw. }
    now apply (Hresto w).
Qed.

(** Whatever is typed at the device's menu and whatever the random source
    delivers, the device [main] ends with is one reachable by method calls
    from [__init__], so it satisfies the invariant: 6-bit identity, key index
    in [0, 4), key table empty or of four 64-bit keys. *)
Theorem main_cliente_alcanzable
    (entradas : list (list Z)) (w0 w' : Mundo) (r : resultado Fin) :
  main entradas w0 = Some (r, w') →
  mundo_alcanzable w' ∧ cliente_ok (self w').
Proof.
  intros Hrun.
  assert (mundo_alcanzable w') as Hw'.
  { unfold main, mbind, M_bind in Hrun.
    destruct (init w0) as [[[[] | e] w1] |] eqn:E; [| | discriminate].
    - apply (bucle_menu_alcanzable (length entradas) entradas w1 w' r);
        [lia | | exact Hrun].
      exact (alcanzable_nuevo w0 _ w1 E).
    - apply (inj Some), pair_equal_spec in Hrun as [_ <-].
      exact (alcanzable_nuevo w0 _ w1 E). }
  split; [exact Hw' | now apply mundo_alcanzable_ok].
Qed.

Lemma main_cliente_alcanzable_witness :
  cliente_ok (self (tras (main [[49]; [50]; [104; 105]; [53]]) mundo_ejemplo)).
Proof.
  apply (main_cliente_alcanzable [[49]; [50]; [104; 105]; [53]] mundo_ejemplo
           (tras (main [[49]; [50]; [104; 105]; [53]]) mundo_ejemplo) (Ok Salir)).
  vm_compute. reflexivity.
Defined.

(** As long as option 1 is not chosen, the menu does nothing on a device
    without keys: options 2, 3 and 4 are skipped (and option 2 reads no
    message), so no file is written and the object stays as it is. *)
Theorem menu_sin_primer_contacto (entradas : list (list Z)) (w : Mundo) :
  llaves (self w) = [] →
  Forall (λ opcion, opcion ≠ [49]) entradas →
  ∃ fin, bucle_menu entradas w = Some (Ok fin, w) ∧
         (fin = Salir ↔ [53] ∈ entradas).
Proof.
  intros Hv Hno. induction Hno as [| opcion resto Hop _ IH].
  - exists Esperando. split; [reflexivity |]. split; [discriminate |].
    intros H. now apply elem_of_nil in H.
  - destruct IH as (fin & Hrun & Hfin).
    cbn [bucle_menu].
    destruct (decide (opcion = [49])) as [E | _]; [contradiction |].
    assert (∀ (m : M Aviso),
              (c ← get_self;
               match llaves c with
               | [] => bucle_menu resto
               | _ :: _ => m ;; bucle_menu resto
               end) w = bucle_menu resto w) as Hguard.
    { intros m. rewrite bind_get_self. now rewrite Hv. }
    assert (opcion ≠ [53] → (fin = Salir ↔ [53] ∈ opcion :: resto)) as Hfin'.
    { intros Hne. rewrite Hfin, elem_of_cons. intuition congruence. }
    destruct (decide (opcion = [50])) as [-> | _].
    { exists fin. split; [| apply Hfin'; discriminate].
      rewrite bind_get_self. now rewrite Hv. }
    destruct (decide (opcion = [51])) as [-> | _].
    { exists fin. split; [| apply Hfin'; discriminate]. now rewrite Hguard. }
    destruct (decide (opcion = [52])) as [-> | _].
    { exists fin. split; [| apply Hfin'; discriminate]. now rewrite Hguard. }
    destruct (decide (opcion = [53])) as [-> | Hne].
    { exists Salir. split; [reflexivity |]. split; [intros _; left | reflexivity]. }
    exists fin. split; [exact Hrun | now apply Hfin'].
Qed.

Lemma menu_sin_primer_contacto_witness :
  ∃ fin, bucle_menu [[50]; [104; 105]; [51]; [52]] (tras init mundo_ejemplo) =
         Some (Ok fin, tras init mundo_ejemplo) ∧
         (fin = Salir ↔ [53] ∈ [[50]; [104; 105]; [51]; [52]]).
Proof.
  apply menu_sin_primer_contacto.
  - reflexivity.
  - repeat constructor; discriminate.
Defined.

End MenuCliente.
